(** * HubSpot to Excel exporter: fetch, record construction and merge

    A shallow embedding of [HubSpotExporter] from
    [HubSpot_to_Excel_SmartUpdate_1.2.py]: the paginated fetch
    [get_contacts_from_list], the record construction of [update_excel]
    and the merge [merge_contact_data], with the part of pandas they use. *)

From Stdlib Require Import ZArith String List Lia DecimalString DecimalPos DecimalZ.
From stdpp Require Import gmap strings list.

Local Open Scope string_scope.
Local Open Scope list_scope.

(** ** Values *)

(** A scalar held in a dict or in a table cell: a Python [str], an [int],
    or pandas' missing value.  Dict keys match when the cells are equal. *)
Inductive cell :=
| Str (s : string)
| Num (z : Z)
| NaN.

#[global] Instance cell_eq_dec : EqDecision cell.
Proof. solve_decision. Defined.

(** An insertion-ordered Python dict with [str] keys. *)
Abbreviation dict := (list (string * cell)).

(** Lookup in an association list, first binding of the key. *)
Fixpoint assoc {K V : Type} `{EqDecision K} (k : K) (l : list (K * V)) : option V :=
  match l with
  | [] => None
  | (k', v) :: l' => if decide (k' = k) then Some v else assoc k l'
  end.

(** [d.get(k, dflt)] *)
Definition dict_get {K V : Type} `{EqDecision K} (d : list (K * V)) (k : K) (dflt : V) : V :=
  default dflt (assoc k d).

(** Assignment to a key: in place when the key exists, appended otherwise. *)
Fixpoint set_assoc {V : Type} (k : string) (v : V) (l : list (string * V)) : list (string * V) :=
  match l with
  | [] => [(k, v)]
  | (k', v') :: l' =>
      if decide (k' = k) then (k', v) :: l' else (k', v') :: set_assoc k v l'
  end.

(** [str(z)] for an [int]. *)
Definition str (z : Z) : string := NilZero.string_of_int (Z.to_int z).

(** ** The part of pandas the exporter uses *)

(** A frame with the default range index: the number of rows and the
    labelled columns, in order. *)
Record DataFrame := {
  index : nat;
  data : list (string * list cell)
}.

Definition columns (df : DataFrame) : list string := map fst (data df).

(** [df.empty]: some axis has length 0. *)
Definition empty (df : DataFrame) : bool :=
  (index df =? 0)%nat || (length (data df) =? 0)%nat.

(** [df[c]]; [None] stands for [KeyError]. *)
Definition getitem (df : DataFrame) (c : string) : option (list cell) :=
  assoc c (data df).

(** [df[c] = vals] for a column of the frame's length. *)
Definition setitem (df : DataFrame) (c : string) (vals : list cell) : DataFrame :=
  {| index := index df; data := set_assoc c vals (data df) |}.

(** [df[c] = v] for a scalar, broadcast over the rows. *)
Definition setitem_scalar (df : DataFrame) (c : string) (v : cell) : DataFrame :=
  setitem df c (replicate (index df) v).

(** Labels in order of first appearance. *)
Fixpoint unique (seen l : list string) : list string :=
  match l with
  | [] => []
  | x :: l' =>
      if decide (x ∈ seen) then unique seen l' else x :: unique (x :: seen) l'
  end.

(** [pd.DataFrame(records)] for a list of dicts: the columns are the keys
    in order of first appearance, a key a record lacks reads [NaN]. *)
Definition pd_DataFrame (records : list dict) : DataFrame :=
  {| index := length records;
     data := map (fun c => (c, map (fun r => dict_get r c NaN) records))
                 (unique [] (concat (map (map fst) records))) |}.

(** The frame's labels are distinct and every column has one cell per row. *)
Definition wf_df (df : DataFrame) : Prop :=
  NoDup (columns df) ∧ Forall (fun p => length p.2 = index df) (data df).

#[global] Instance wf_df_dec df : Decision (wf_df df).
Proof. unfold wf_df. apply _. Defined.

(** Two frames with the same rows and labels, equal in every column
    but 'Last Updated'. *)
Definition same_but_stamp (a b : DataFrame) : Prop :=
  index a = index b
  ∧ columns a = columns b
  ∧ ∀ c, c ≠ "Last Updated" → getitem a c = getitem b c.

(** ** Effects: console, clock, HTTP *)

Inductive msg :=
| FetchingList (list_id : string)
| FetchingPage (page : nat) (offset : Z)
| AuthFailed
| ListNotFound (list_id : string)
| RunGetLists
| HttpError (status : Z) (text : string)
| Retrieved (n : nat)
| ExceptionOccurred
| TotalRetrieved (n : nat)
| ProcessingContact (i total : nat)
| NoContactIdColumn
| PreservingCustom (cols : list string)
| NoNewData
| FoundNew (n : nat).

(** The query of one page request. *)
Record request := {
  rq_list_id : string;
  rq_count : Z;
  rq_vidOffset : Z
}.

(** A property of a v1 contact: a dict (of which only ["value"] is read)
    or a plain scalar. *)
Inductive propval :=
| PDict (value : option cell)
| PPlain (c : cell).

(** The ['properties'] of a v1 contact: absent, an object, or a value
    that is no object (null, a number, a string, a list), which has no
    [items()]. *)
Inductive raw_properties :=
| NoProperties
| Properties (props : gmap string propval)
| NotAnObject.

Record raw_contact := {
  vid : option Z;
  rc_properties : raw_properties
}.

(** An element of a page's contact list: an object, or any other JSON
    value, which has no [get()]. *)
Inductive json_contact :=
| JContact (c : raw_contact)
| JOther.

(** The decoded body of a page; [None] is an absent key. *)
Record page := {
  pg_contacts : option (list json_contact);
  pg_has_more : option bool;
  pg_vid_offset : option Z
}.

(** A response; [json = None] when the body gives no page: [response.json()]
    raises, or the reading of the page does ([data.get] on a body that is
    no object, [contacts.extend] on contacts that are no list), all of it
    inside the try. *)
Record response := {
  status_code : Z;
  text : string;
  json : option page
}.

(** What the process cannot decide: the clock readings and what the n-th
    request meets, [None] being a transport exception. *)
Record env := {
  strftime_now : nat -> string;
  requests_get : nat -> request -> option response
}.

Record world := {
  stdout : list msg;
  clock : nat;
  sent : list request
}.

Definition world0 : world := {| stdout := []; clock := 0; sent := [] |}.

Inductive result (A : Type) :=
| Returns (a : A)
| Raises
| OutOfFuel.
Arguments Returns {A} a.
Arguments Raises {A}.
Arguments OutOfFuel {A}.

Definition M (A : Type) : Type := env -> world -> result A * world.

#[global] Instance M_ret : MRet M := fun A a _ w => (Returns a, w).

#[global] Instance M_bind : MBind M := fun A B k m e w =>
  match m e w with
  | (Returns a, w') => k a e w'
  | (Raises, w') => (Raises, w')
  | (OutOfFuel, w') => (OutOfFuel, w')
  end.

Definition raise {A} : M A := fun _ w => (Raises, w).
Definition out_of_fuel {A} : M A := fun _ w => (OutOfFuel, w).

(** [try: m except Exception: h] *)
Definition try_except {A} (m h : M A) : M A :=
  fun e w =>
    match m e w with
    | (Raises, w') => h e w'
    | r => r
    end.

Definition print (m : msg) : M unit :=
  fun _ w =>
    (Returns tt, {| stdout := stdout w ++ [m]; clock := clock w; sent := sent w |}).

Definition print_if (b : bool) (m : msg) : M unit :=
  if b then print m else mret tt.

(** [datetime.now().strftime("%Y-%m-%d %H:%M:%S")] *)
Definition datetime_now : M string :=
  fun e w =>
    (Returns (strftime_now e (clock w)),
     {| stdout := stdout w; clock := S (clock w); sent := sent w |}).

(** [requests.get(url, headers, params)] *)
Definition http_get (rq : request) : M response :=
  fun e w =>
    let w' := {| stdout := stdout w; clock := clock w; sent := sent w ++ [rq] |} in
    match requests_get e (length (sent w)) rq with
    | Some r => (Returns r, w')
    | None => (Raises, w')
    end.

(** Lifting of a lookup that raises when it fails. *)
Definition or_raise {A} (o : option A) : M A :=
  match o with
  | Some a => mret a
  | None => raise
  end.

(** ** [HubSpotExporter.get_contacts_from_list] *)

(** A character of a Python [str], as [len] and slices count them. *)
Definition codepoint : Type := N.

Record HubSpotExporter := {
  api_key : list codepoint;
  debug : bool
}.

(** A contact in the v3 shape the fetch returns. *)
Record contact := {
  id : string;
  properties : gmap string cell
}.

(** How one turn of the [while True] loop ends. *)
Inductive ctl :=
| Next (contacts : list json_contact) (offset : Z) (page_no : nat)
| Break (contacts : list json_contact)
| Return (v : list contact).

(** [data.get("contacts", [])], [data.get("has-more", False)] and
    [data.get("vid-offset", 0)] *)
Definition get_contacts (data : page) : list json_contact := default [] (pg_contacts data).
Definition get_has_more (data : page) : bool := default false (pg_has_more data).
Definition get_vid_offset (data : page) : Z := default 0%Z (pg_vid_offset data).

(** One turn of the loop: the request of a page and what follows it. *)
Definition fetch_page (self : HubSpotExporter) (list_id : string) (limit : Z)
    (contacts : list json_contact) (offset : Z) (page_no : nat) : M ctl :=
  print_if (debug self) (FetchingPage page_no offset);;
  try_except
    (response ← http_get {| rq_list_id := list_id; rq_count := limit;
                            rq_vidOffset := offset |};
     if decide (status_code response = 401%Z) then
       print AuthFailed;; mret (Return [])
     else if decide (status_code response = 404%Z) then
       print (ListNotFound list_id);; print RunGetLists;; mret (Return [])
     else if decide (status_code response ≠ 200%Z) then
       print (HttpError (status_code response) (text response));; mret (Return [])
     else
       data ← or_raise (json response);
       let page_contacts := get_contacts data in
       let contacts := contacts ++ page_contacts in
       print_if (debug self) (Retrieved (length page_contacts));;
       if get_has_more data then
         mret (Next contacts (get_vid_offset data) (S page_no))
       else mret (Break contacts))
    (print ExceptionOccurred;; mret (Break contacts)).

(** The loop, with a bound on the number of turns. *)
Fixpoint fetch_pages (fuel : nat) (self : HubSpotExporter) (list_id : string)
    (limit : Z) (contacts : list json_contact) (offset : Z) (page_no : nat) : M ctl :=
  match fuel with
  | O => out_of_fuel
  | S fuel' =>
      st ← fetch_page self list_id limit contacts offset page_no;
      match st with
      | Next contacts' offset' page_no' =>
          fetch_pages fuel' self list_id limit contacts' offset' page_no'
      | _ => mret st
      end
  end.

(** A property value flattened: the ["value"] of a dict, a scalar as it is. *)
Definition flatten (value : propval) : cell :=
  match value with
  | PDict v => default (Str "") v
  | PPlain c => c
  end.

(** The conversion of a v1 contact to the v3 shape; [None] when it
    raises AttributeError: [contact.get] on a contact that is no
    object, [props.items()] on properties that are no object. *)
Definition v3_contact (entry : json_contact) : option contact :=
  match entry with
  | JOther => None
  | JContact c =>
      let v3_id := match vid c with Some v => str v | None => "" end in
      match rc_properties c with
      | NoProperties => Some {| id := v3_id; properties := ∅ |}
      | Properties props => Some {| id := v3_id; properties := flatten <$> props |}
      | NotAnObject => None
      end
  end.

Definition get_contacts_from_list (fuel : nat) (self : HubSpotExporter)
    (list_id : string) (limit : Z) : M (list contact) :=
  print (FetchingList list_id);;
  st ← fetch_pages fuel self list_id limit [] 0%Z 1;
  match st with
  | Return v => mret v
  | Break contacts | Next contacts _ _ =>
      print (TotalRetrieved (length contacts));;
      or_raise (mapM v3_contact contacts)
  end.

(** *** The records of a fetch, independently of the conversion *)

(** [c] is the record of the v1 contact [raw]: its identifier is the vid
    as text, the empty string without one, and it has exactly the
    properties of [raw], a dict by its ['value'] (the empty string
    without one), a scalar as it is. *)
Definition record_of (raw : raw_contact) (c : contact) : Prop :=
  id c = match vid raw with Some v => str v | None => "" end
  ∧ ∀ name,
      properties c !! name
      = match rc_properties raw with
        | Properties props =>
            match props !! name with
            | Some (PDict (Some v)) => Some v
            | Some (PDict None) => Some (Str "")
            | Some (PPlain v) => Some v
            | None => None
            end
        | _ => None
        end.

(** A contact the conversion cannot read. *)
Definition malformed (entry : json_contact) : Prop :=
  match entry with
  | JOther => True
  | JContact c => rc_properties c = NotAnObject
  end.

(** ** [HubSpotExporter.update_excel]: the records handed to the merge *)

Definition contact_info (c : contact) (stamp : string) : dict :=
  [ ("Contact ID", Str (id c));
    ("Email", default (Str "") (properties c !! "email"));
    ("First Name", default (Str "") (properties c !! "firstname"));
    ("Last Name", default (Str "") (properties c !! "lastname"));
    ("Phone", default (Str "") (properties c !! "phone"));
    ("Company", default (Str "") (properties c !! "company"));
    ("Lifecycle Stage", default (Str "") (properties c !! "lifecyclestage"));
    ("Lead Status", default (Str "") (properties c !! "hs_lead_status"));
    ("Last Updated", Str stamp) ].

(** The keys of [contact_info], which are the columns of a fetch. *)
Definition fetched_columns : list string :=
  ["Contact ID"; "Email"; "First Name"; "Last Name"; "Phone"; "Company";
   "Lifecycle Stage"; "Lead Status"; "Last Updated"].

(** A record with the keys of [contact_info], in its order. *)
Definition is_contact_info (r : dict) : Prop := map fst r = fetched_columns.

(** The fields of a record that come from the fetch: all but the stamp. *)
Definition fetched_fields (r : dict) : dict :=
  filter (fun p => p.1 ≠ "Last Updated") r.

(** The identifiers of a list of records, as the frame's column has them. *)
Definition record_ids (records : list dict) : list cell :=
  map (fun r => dict_get r "Contact ID" NaN) records.

(** The loop over [enumerate(contacts)], from position [i]. *)
Fixpoint contact_data_from (i total : nat) (contacts : list contact) : M (list dict) :=
  match contacts with
  | [] => mret []
  | c :: rest =>
      print_if ((S i mod 10 =? 0)%nat) (ProcessingContact (S i) total);;
      stamp ← datetime_now;
      more ← contact_data_from (S i) total rest;
      mret (contact_info c stamp :: more)
  end.

Definition contact_data (contacts : list contact) : M (list dict) :=
  contact_data_from 0 (length contacts) contacts.

(** ** [HubSpotExporter.merge_contact_data] *)

#[global] Instance cell_countable : Countable cell.
Proof.
  refine (inj_countable'
    (fun c => match c with
              | Str s => inl s
              | Num z => inr (inl z)
              | NaN => inr (inr tt)
              end)
    (fun x => match x with
              | inl s => Str s
              | inr (inl z) => Num z
              | inr (inr _) => NaN
              end) _).
  by intros [].
Defined.

(** [df[labels]]: the listed columns in the listed order. *)
Definition select (df : DataFrame) (labels : list string) : option DataFrame :=
  cols ← mapM (fun c => vals ← getitem df c; Some (c, vals)) labels;
  Some {| index := index df; data := cols |}.

(** [df.set_index(c)]: the index values and the other columns; the label
    has to name one column. *)
Definition set_index (df : DataFrame) (c : string) : option (list cell * DataFrame) :=
  match filter (fun p => p.1 = c) (data df) with
  | [(_, ids)] =>
      Some (ids, {| index := index df; data := filter (fun p => p.1 ≠ c) (data df) |})
  | _ => None
  end.

(** The row of a frame as a dict. *)
Definition row_dict (df : DataFrame) (i : nat) : dict :=
  map (fun p => (p.1, default NaN (p.2 !! i))) (data df).

(** [to_dict('index')]: a dict from index value to row; the index must
    be unique. *)
Definition to_dict_index (idf : list cell * DataFrame) : option (list (cell * dict)) :=
  if decide (NoDup idf.1) then Some (imap (fun i x => (x, row_dict idf.2 i)) idf.1)
  else None.

(** [existing_df[['Contact ID'] + custom_columns].set_index('Contact ID')
    .to_dict('index')]: the custom values of every existing identifier. *)
Definition custom_data_of (existing_df : DataFrame) (custom_columns : list string)
    : option (list (cell * dict)) :=
  sel ← select existing_df ("Contact ID" :: custom_columns);
  idf ← set_index sel "Contact ID";
  to_dict_index idf.

(** The columns of the existing table that the fetch does not produce. *)
Definition custom_columns_of (hubspot_columns : list string) (existing_df : DataFrame)
    : list string :=
  filter (fun col => col ∉ hubspot_columns) (columns existing_df).

(** [custom_data.get(x, {}).get(col, '')] *)
Definition custom_lookup (custom_data : list (cell * dict)) (col : string) (x : cell) : cell :=
  dict_get (dict_get custom_data x []) col (Str "").

(** The loop that adds the custom columns to the new frame. *)
Fixpoint add_custom_columns (custom_data : list (cell * dict))
    (custom_columns : list string) (new_df : DataFrame) : option DataFrame :=
  match custom_columns with
  | [] => Some new_df
  | col :: rest =>
      ids ← getitem new_df "Contact ID";
      add_custom_columns custom_data rest
        (setitem new_df col (map (custom_lookup custom_data col) ids))
  end.

Definition merge_contact_data (new_contacts : list dict)
    (existing_contacts : option DataFrame) : M DataFrame :=
  match existing_contacts with
  | None => mret (pd_DataFrame new_contacts)
  | Some existing_contacts =>
      if empty existing_contacts then mret (pd_DataFrame new_contacts) else
      let new_df := pd_DataFrame new_contacts in
      let existing_df := existing_contacts in
      if decide ("Contact ID" ∉ columns existing_df) then
        print NoContactIdColumn;; mret new_df
      else
      let hubspot_columns := if empty new_df then [] else columns new_df in
      let custom_columns := custom_columns_of hubspot_columns existing_df in
      print_if (bool_decide (custom_columns ≠ [])) (PreservingCustom custom_columns);;
      if empty new_df then print NoNewData;; mret existing_df else
      custom_data ← or_raise (custom_data_of existing_df custom_columns);
      stamp ← datetime_now;
      let new_df := setitem_scalar new_df "Last Updated" (Str stamp) in
      new_df ← or_raise (add_custom_columns custom_data custom_columns new_df);
      existing_ids ← or_raise (getitem existing_df "Contact ID");
      new_ids ← or_raise (getitem new_df "Contact ID");
      let added_ids : gset cell := list_to_set new_ids ∖ list_to_set existing_ids in
      print_if (bool_decide (added_ids ≠ ∅)) (FoundNew (size added_ids));;
      mret new_df
  end.

(** ** The server's side of a paginated fetch *)

Section Script.
Variables (self : HubSpotExporter) (list_id : string) (limit : Z).

Definition page_request (offset : Z) : request :=
{| rq_list_id := list_id; rq_count := limit; rq_vidOffset := offset |}.

(** The n-th and following requests, each carrying the cursor of the
  page before it, are answered 200 with the pages [ps]. *)
Fixpoint serves (e : env) (n : nat) (offset : Z) (ps : list page) : Prop :=
match ps with
| [] => True
| p :: ps' =>
    (∃ txt, requests_get e n (page_request offset)
            = Some {| status_code := 200; text := txt; json := Some p |})
    ∧ serves e (S n) (get_vid_offset p) ps'
end.

(** The requests a run over [ps] sends, from the cursor [offset]. *)
Fixpoint cursor_requests (offset : Z) (ps : list page) : list request :=
match ps with
| [] => []
| p :: ps' => page_request offset :: cursor_requests (get_vid_offset p) ps'
end.

(** The cursor after the pages [ps]. *)
Definition cursor_after (offset : Z) (ps : list page) : Z :=
foldl (fun _ p => get_vid_offset p) offset ps.

(** What the debug prints show over the pages [ps]. *)
Fixpoint pages_log (page_no : nat) (offset : Z) (ps : list page) : list msg :=
match ps with
| [] => []
| p :: ps' =>
    (if debug self then [FetchingPage page_no offset] else [])
    ++ (if debug self then [Retrieved (length (get_contacts p))] else [])
    ++ pages_log (S page_no) (get_vid_offset p) ps'
end.

(** The world after the pages [ps] were fetched. *)
Definition after_pages (w : world) (page_no : nat) (offset : Z) (ps : list page) : world :=
{| stdout := stdout w ++ pages_log page_no offset ps;
   clock := clock w;
   sent := sent w ++ cursor_requests offset ps |}.

End Script.

(** The contacts a fetch of [list_id] can have collected: those of a
    page answered 200 to one of its requests. *)
Definition delivered (list_id : string) (limit : Z) (e : env)
    (entry : json_contact) : Prop :=
  ∃ n offset r p,
    requests_get e n (page_request list_id limit offset) = Some r
    ∧ status_code r = 200%Z
    ∧ json r = Some p
    ∧ entry ∈ default [] (pg_contacts p).

(** ** [HubSpotExporter.update_excel]: the frames written *)

(** [pd.DataFrame(columns=cols)]: the given labels and no rows. *)
Definition pd_DataFrame_columns (cols : list string) : DataFrame :=
  {| index := 0; data := map (fun c => (c, [])) cols |}.

(** The contacts frame when nothing is merged:
    [pd.DataFrame(contact_data) if contact_data else pd.DataFrame(columns=[...])] *)
Definition new_contact_df (contact_data : list dict) : DataFrame :=
  match contact_data with
  | [] => pd_DataFrame_columns fetched_columns
  | _ => pd_DataFrame contact_data
  end.

(** The summary sheet: the contacts frame with four columns set, or the
    frame without rows and columns when the contacts frame is empty. *)
Definition summary_df (contact_df : DataFrame) : DataFrame :=
  let summary_df :=
    if negb (empty contact_df) then contact_df else {| index := 0; data := [] |} in
  if negb (empty summary_df) then
    let summary_df := setitem_scalar summary_df "Total Emails" (Num 0) in
    let summary_df := setitem_scalar summary_df "Total Meetings" (Num 0) in
    let summary_df := setitem_scalar summary_df "Last Email Date" (Str "") in
    setitem_scalar summary_df "Last Meeting Date" (Str "")
  else summary_df.

(** The columns the summary sheet sets. *)
Definition summary_columns : list string :=
  ["Total Emails"; "Total Meetings"; "Last Email Date"; "Last Meeting Date"].

(** ** The rest of the exporter: connection test, lists, files *)

(** What the other methods print. *)
Inductive note :=
| TestingConnection
| ApiKey (shown : list codepoint) (cut : bool)
| ConnectionOk
| TotalContacts (total : cell)
| AuthHelp (line : nat)
| ApiError (status : Z)
| ResponseText (body : string)
| ConnectionError
| FetchingLists
| FoundLists (n : nat)
| Separator
| ListName (v : cell)
| ListId (v : cell)
| ListCount (v : cell)
| ListsAuthFailed (v1 : bool)
| ListsError (v1 : bool)
| NoLists
| LoadingFile (path : string)
| LoadedSheet (name : string) (rows : nat)
| LoadError
| CannotProceed
| UpdateToken
| FetchingAll
| Merging
| Saving (path : string)
| ExportComplete
| SummaryHeader
| ContactsInFile (n : nat)
| WriteError.

(** The answer to the connection test; [pr_json] is [None] when
    [response.json()] raises, and holds the ["total"] entry otherwise. *)
Record probe_response := {
  pr_status : Z;
  pr_text : string;
  pr_json : option (option cell)
}.

(** The two endpoints [get_lists] tries. *)
Inductive endpoint := V1 | V3.

(** A list as an endpoint describes it; [li_size] is [metaData.size]. *)
Record list_item := {
  li_name : option cell;
  li_listId : option cell;
  li_size : option cell;
  li_hs_list_id : option cell;
  li_hs_list_size : option cell
}.

Record lists_body := {
  lb_lists : option (list list_item);
  lb_results : option (list list_item)
}.

Record lists_response := {
  lr_status : Z;
  lr_json : option lists_body
}.

(** A spreadsheet file as the loader meets it: absent, not readable as
    a workbook, or sheets of which a [None] one does not parse. *)
Inductive file_state :=
| NoFile
| BadFile
| Sheets (sheets : list (string * option DataFrame)).

(** How the writing of the workbook goes. *)
Inductive write_outcome :=
| WriteOk
| OpenRaises
| SaveRaises.

Abbreviation workbook := (list (string * DataFrame)).

(** Everything outside the process. *)
Record machine := {
  net : env;
  probe : nat -> option probe_response;
  lists_at : endpoint -> option lists_response;
  resolve : string -> string;
  file_at : string -> file_state;
  writing : write_outcome;
  os_nt : bool;
  startfile_raises : bool
}.

Record session := {
  console : list (msg + note);
  readings : nat;
  paged : list request;
  probed : nat;
  listed : list endpoint;
  saved : option (string * workbook);
  opened : bool
}.

Definition session0 : session :=
  {| console := []; readings := 0; paged := []; probed := 0; listed := [];
     saved := None; opened := false |}.

Definition U (A : Type) : Type := machine -> session -> result A * session.

#[global] Instance U_ret : MRet U := fun A a _ s => (Returns a, s).

#[global] Instance U_bind : MBind U := fun A B k m mc s =>
  match m mc s with
  | (Returns a, s') => k a mc s'
  | (Raises, s') => (Raises, s')
  | (OutOfFuel, s') => (OutOfFuel, s')
  end.

Definition u_raise {A} : U A := fun _ s => (Raises, s).

Definition u_try {A} (m h : U A) : U A :=
  fun mc s =>
    match m mc s with
    | (Raises, s') => h mc s'
    | r => r
    end.

Definition u_or_raise {A} (o : option A) : U A :=
  match o with
  | Some a => mret a
  | None => u_raise
  end.

Definition say (n : note) : U unit :=
  fun _ s =>
    (Returns tt,
     {| console := console s ++ [inr n]; readings := readings s; paged := paged s;
        probed := probed s; listed := listed s; saved := saved s;
        opened := opened s |}).

Fixpoint say_all (ns : list note) : U unit :=
  match ns with
  | [] => mret tt
  | n :: rest => say n;; say_all rest
  end.
Arguments say_all : simpl never.

(** A fetch, record or merge step run inside the session. *)
Definition lift_M {A} (m : M A) : U A :=
  fun mc s =>
    let '(r, w) := m (net mc) {| stdout := []; clock := readings s; sent := paged s |} in
    (r,
     {| console := console s ++ map inl (stdout w); readings := clock w;
        paged := sent w; probed := probed s; listed := listed s;
        saved := saved s; opened := opened s |}).

(** [requests.get] of the contacts count. *)
Definition probe_get : U probe_response :=
  fun mc s =>
    let s' := {| console := console s; readings := readings s; paged := paged s;
                 probed := S (probed s); listed := listed s; saved := saved s;
                 opened := opened s |} in
    match probe mc (probed s) with
    | Some r => (Returns r, s')
    | None => (Raises, s')
    end.

(** [requests.get] of a lists endpoint. *)
Definition lists_get (ep : endpoint) : U lists_response :=
  fun mc s =>
    let s' := {| console := console s; readings := readings s; paged := paged s;
                 probed := probed s; listed := listed s ++ [ep]; saved := saved s;
                 opened := opened s |} in
    match lists_at mc ep with
    | Some r => (Returns r, s')
    | None => (Raises, s')
    end.

(** *** [HubSpotExporter.test_connection] *)

Definition test_connection (self : HubSpotExporter) : U bool :=
  say TestingConnection;;
  say (if bool_decide (20 < length (api_key self))
       then ApiKey (take 20 (api_key self)) true
       else ApiKey (api_key self) false);;
  u_try
    (response ← probe_get;
     if decide (pr_status response = 200%Z) then
       say ConnectionOk;;
       data ← u_or_raise (pr_json response);
       let total_contacts := default (Num 0) data in
       say (TotalContacts total_contacts);;
       mret true
     else if decide (pr_status response = 401%Z) then
       say_all (map AuthHelp (seq 0 13));;
       mret false
     else
       say (ApiError (pr_status response));;
       say (ResponseText (pr_text response));;
       mret false)
    (say ConnectionError;; mret false).

(** *** [HubSpotExporter.get_lists] *)

Definition is_v1 (ep : endpoint) : bool :=
  match ep with V1 => true | V3 => false end.

(** The lines printed for one list. *)
Definition list_lines (ep : endpoint) (lst : list_item) : list note :=
  match ep with
  | V1 =>
      [ ListName (default (Str "Unknown") (li_name lst));
        ListId (default (Str "Unknown") (li_listId lst));
        ListCount (default (Num 0) (li_size lst));
        Separator ]
  | V3 =>
      [ ListName (default (Str "Unknown") (li_name lst));
        ListId (default (default (Str "Unknown") (li_listId lst)) (li_hs_list_id lst));
        ListCount (default (Num 0) (li_hs_list_size lst));
        Separator ]
  end.

(** One turn of the loop over the endpoints: [Some lists] when it
    returns them, [None] when the loop goes on. *)
Definition try_endpoint (ep : endpoint) : U (option (list list_item)) :=
  u_try
    (response ← lists_get ep;
     if decide (lr_status response = 200%Z) then
       body ← u_or_raise (lr_json response);
       let lists :=
         if is_v1 ep then default [] (lb_lists body) else default [] (lb_results body) in
       match lists with
       | [] => mret None
       | _ =>
           say (FoundLists (length lists));;
           say Separator;;
           say_all (concat (map (list_lines ep) lists));;
           mret (Some lists)
       end
     else if decide (lr_status response = 401%Z) then
       say (ListsAuthFailed (is_v1 ep));;
       mret None
     else mret None)
    (say (ListsError (is_v1 ep));; mret None).

Fixpoint get_lists_from (endpoints : list endpoint) : U (list list_item) :=
  match endpoints with
  | [] => say NoLists;; mret []
  | ep :: rest =>
      r ← try_endpoint ep;
      match r with
      | Some lists => mret lists
      | None => get_lists_from rest
      end
  end.

Definition get_lists : U (list list_item) :=
  say FetchingLists;;
  get_lists_from [V1; V3].

(** *** [HubSpotExporter.load_existing_data] *)

(** The loop over the sheet names. *)
Fixpoint load_sheets (sheets : list (string * option DataFrame))
    (existing_data : gmap string DataFrame) : U (gmap string DataFrame) :=
  match sheets with
  | [] => mret existing_data
  | (sheet_name, read) :: rest =>
      df ← u_or_raise read;
      say (LoadedSheet sheet_name (index df));;
      load_sheets rest (<[sheet_name := df]> existing_data)
  end.

Definition load_existing_data (filepath : string) : U (gmap string DataFrame) :=
  fun mc s =>
    match file_at mc filepath with
    | NoFile => (Returns ∅, s)
    | file =>
        (say (LoadingFile filepath);;
         u_try
           (sheets ← match file with Sheets l => mret l | _ => u_raise end;
            load_sheets sheets ∅)
           (say LoadError;; mret ∅) : U (gmap string DataFrame)) mc s
    end.

(** *** [HubSpotExporter.update_excel] *)

(** Python's truth of an optional string. *)
Definition truthy (o : option string) : bool :=
  match o with
  | Some s => negb (bool_decide (s = ""))
  | None => false
  end.

Definition email_df : DataFrame :=
  pd_DataFrame_columns
    ["Contact ID"; "Contact Email"; "Contact Name"; "Email Subject";
     "Email Direction"; "Email Status"; "Email Date"; "Email Preview"].

Definition meeting_df : DataFrame :=
  pd_DataFrame_columns
    ["Contact ID"; "Contact Email"; "Contact Name"; "Meeting Title";
     "Meeting Start"; "Meeting End"; "Meeting Outcome"; "Meeting Notes"].

(** The one row of the 'Export Info' sheet. *)
Definition metadata (stamp export_type : string) (contact_df : DataFrame)
    (file_exists : bool) : DataFrame :=
  pd_DataFrame
    [[ ("Export Date", Str stamp);
       ("Export Type", Str export_type);
       ("Total Contacts", Num (Z.of_nat (index contact_df)));
       ("Total Emails", Num (Z.of_nat (index email_df)));
       ("Total Meetings", Num (Z.of_nat (index meeting_df)));
       ("Status", Str (if file_exists then "Updated" else "Created"));
       ("Authentication", Str "Success") ]].

(** The sheets in the order they are written. *)
Definition export_sheets (stamp export_type : string) (file_exists : bool)
    (contact_df : DataFrame) : workbook :=
  [ ("Export Info", metadata stamp export_type contact_df file_exists);
    ("Summary", summary_df contact_df);
    ("Contacts", contact_df);
    ("Emails", email_df);
    ("Meetings", meeting_df) ].

(** The [with pd.ExcelWriter(...)] block. *)
Definition write_excel (full_filepath export_type : string) (file_exists : bool)
    (contact_df : DataFrame) : U unit :=
  fun mc s =>
    match writing mc with
    | OpenRaises => (Raises, s)
    | outcome =>
        (stamp ← lift_M datetime_now;
         let sheets := export_sheets stamp export_type file_exists contact_df in
         match outcome with
         | WriteOk =>
             fun _ s' =>
               (Returns tt,
                {| console := console s'; readings := readings s'; paged := paged s';
                   probed := probed s'; listed := listed s';
                   saved := Some (full_filepath, sheets); opened := opened s' |})
         | _ => u_raise
         end : U unit) mc s
    end.

(** [os.startfile(script_dir)] on Windows. *)
Definition open_folder : U unit :=
  fun mc s =>
    if os_nt mc then
      if startfile_raises mc then (Raises, s)
      else (Returns tt,
            {| console := console s; readings := readings s; paged := paged s;
               probed := probed s; listed := listed s; saved := saved s;
               opened := true |})
    else (Returns tt, s).

(** "Get contacts": the fetch and the export type. *)
Definition fetch_contacts (fuel : nat) (self : HubSpotExporter)
    (list_id list_name : option string) : U (list contact * string) :=
  if truthy list_id then
    contacts ← lift_M (get_contacts_from_list fuel self (default "" list_id) 100);
    mret (contacts,
          "List " +:+ (if truthy list_name then default "" list_name
                       else default "" list_id))
  else
    say FetchingAll;;
    contacts ← lift_M (get_contacts_from_list fuel self "all" 100);
    mret (contacts, "All Contacts").

(** "Handle merging": the contacts frame. *)
Definition choose_contact_df (existing_data : gmap string DataFrame)
    (file_exists : bool) (merge_strategy : string) (contact_data : list dict)
    : U DataFrame :=
  match existing_data !! "Contacts" with
  | Some existing_contacts =>
      if file_exists && bool_decide (merge_strategy = "update") then
        say Merging;;
        lift_M (merge_contact_data contact_data (Some existing_contacts))
      else mret (new_contact_df contact_data)
  | None => mret (new_contact_df contact_data)
  end.

(** "Write to Excel": the saving and what follows it. *)
Definition save_workbook (full_filepath export_type : string) (file_exists : bool)
    (contact_df : DataFrame) : U bool :=
  say (Saving full_filepath);;
  u_try
    (write_excel full_filepath export_type file_exists contact_df;;
     say ExportComplete;;
     say SummaryHeader;;
     say (ContactsInFile (index contact_df));;
     open_folder;;
     mret true)
    (say WriteError;; mret false).

Definition update_excel (fuel : nat) (self : HubSpotExporter) (filename : string)
    (list_id list_name : option string) (merge_strategy : string) : U bool :=
  ok ← test_connection self;
  if negb ok then
    say CannotProceed;; say UpdateToken;; mret false
  else
  full_filepath ← (fun mc s => (Returns (resolve mc filename), s));
  existing_data ← load_existing_data full_filepath;
  let file_exists := negb (size existing_data =? 0)%nat in
  fetched ← fetch_contacts fuel self list_id list_name;
  let contacts := fetched.1 in
  let export_type := fetched.2 in
  contact_data ← lift_M (contact_data contacts);
  contact_df ← choose_contact_df existing_data file_exists merge_strategy contact_data;
  save_workbook full_filepath export_type file_exists contact_df.

(** The frame of a session step that only prints. *)
Definition only_printed (s s' : session) : Prop :=
  readings s' = readings s ∧ paged s' = paged s ∧ probed s' = probed s
  ∧ listed s' = listed s ∧ saved s' = saved s ∧ opened s' = opened s.

(** The answer that lets the connection test pass: 200 with a body
    that decodes. *)
Definition probe_ok (answer : option probe_response) : bool :=
  match answer with
  | Some response =>
      bool_decide (pr_status response = 200%Z)
      && bool_decide (is_Some (pr_json response))
  | None => false
  end.

(** The lists an endpoint offers: those under its key in a 200 answer
    with a body that decodes, none otherwise. *)
Definition lists_of (mc : machine) (ep : endpoint) : list list_item :=
  match lists_at mc ep with
  | Some response =>
      if decide (lr_status response = 200%Z) then
        match lr_json response with
        | Some body =>
            if is_v1 ep then default [] (lb_lists body) else default [] (lb_results body)
        | None => []
        end
      else []
  | None => []
  end.

(** The sheets of a file when every one of them parses. *)
Definition readable (file : file_state) : option (list (string * DataFrame)) :=
  match file with
  | Sheets sheets => mapM (fun p => df ← p.2; Some (p.1, df)) sheets
  | _ => None
  end.

(** What is loaded from a file: all its sheets when every one parses
    (for a repeated name the later sheet), nothing otherwise. *)
Definition loaded (file : file_state) : gmap string DataFrame :=
  match readable file with
  | Some sheets => foldl (fun m p => <[p.1 := p.2]> m) ∅ sheets
  | None => ∅
  end.

(** The list [update_excel] fetches and the export type it records. *)
Definition list_to_fetch (list_id : option string) : string :=
  if truthy list_id then default "" list_id else "all".

Definition export_type_of (list_id list_name : option string) : string :=
  if truthy list_id then
    "List " +:+ (if truthy list_name then default "" list_name else default "" list_id)
  else "All Contacts".

(** Whether [update_excel] takes the loaded file for an existing one. *)
Definition file_exists_of (existing_data : gmap string DataFrame) : bool :=
  negb (size existing_data =? 0)%nat.

(** The existing contacts sheet [update_excel] merges into, if any. *)
Definition merge_target (existing_data : gmap string DataFrame)
    (merge_strategy : string) : option DataFrame :=
  match existing_data !! "Contacts" with
  | Some existing_contacts =>
      if file_exists_of existing_data && bool_decide (merge_strategy = "update")
      then Some existing_contacts else None
  | None => None
  end.

(** The world a fetch, record or merge step sees inside a session. *)
Definition world_at (clock_reads : nat) (requests : list request) : world :=
  {| stdout := []; clock := clock_reads; sent := requests |}.

(** The records of [contacts], built from the clock reading [t] on. *)
Definition records_from (e : env) (t : nat) (contacts : list contact) : list dict :=
  imap (fun k c => contact_info c (strftime_now e (t + k))) contacts.

(** The contacts frame of an export: the merge into the target, or the
    new frame when there is none. *)
Definition contact_df_of (target : option DataFrame) (contact_data : list dict)
    (e : env) (w : world) : result DataFrame * world :=
  match target with
  | Some existing_contacts => merge_contact_data contact_data (Some existing_contacts) e w
  | None => (Returns (new_contact_df contact_data), w)
  end.

(** What an export comes to, step by step without the printing: its
    result and the file it leaves saved. *)
Definition export_outcome (fuel : nat) (self : HubSpotExporter) (filename : string)
    (list_id list_name : option string) (merge_strategy : string)
    (mc : machine) (s : session) : result bool * option (string * workbook) :=
  if negb (probe_ok (probe mc (probed s))) then (Returns false, saved s) else
  let full_filepath := resolve mc filename in
  let existing_data := loaded (file_at mc full_filepath) in
  match get_contacts_from_list fuel self (list_to_fetch list_id) 100 (net mc)
          (world_at (readings s) (paged s)) with
  | (Returns contacts, w3) =>
      let contact_data := records_from (net mc) (clock w3) contacts in
      match contact_df_of (merge_target existing_data merge_strategy) contact_data
              (net mc) (world_at (clock w3 + length contacts) (sent w3)) with
      | (Returns contact_df, w5) =>
          match writing mc with
          | WriteOk =>
              (Returns (negb (os_nt mc && startfile_raises mc)),
               Some (full_filepath,
                     export_sheets (strftime_now (net mc) (clock w5))
                       (export_type_of list_id list_name)
                       (file_exists_of existing_data) contact_df))
          | _ => (Returns false, saved s)
          end
      | (Raises, _) => (Raises, saved s)
      | (OutOfFuel, _) => (OutOfFuel, saved s)
      end
  | (Raises, _) => (Raises, saved s)
  | (OutOfFuel, _) => (OutOfFuel, saved s)
  end.

(** ** Sample data *)

(** The characters of a text of ASCII characters. *)
Definition ascii_text (s : string) : list codepoint :=
  map Ascii.N_of_ascii (list_ascii_of_string s).

Definition sample_exporter : HubSpotExporter :=
  {| api_key := ascii_text "pat-na1-demo"; debug := true |}.

Definition sample_v1 (v : Z) (email : string) : raw_contact :=
  {| vid := Some v;
     rc_properties := Properties {[ "email" := PDict (Some (Str email)) ]} |}.

Definition sample_raw (v : Z) (email : string) : json_contact :=
  JContact (sample_v1 v email).

(** A contact whose properties are null. *)
Definition sample_null_properties : json_contact :=
  JContact {| vid := Some 5%Z; rc_properties := NotAnObject |}.

Definition page_a : page :=
  {| pg_contacts := Some [sample_raw 1 "a@x.io"; sample_raw 2 "b@x.io"];
     pg_has_more := Some true; pg_vid_offset := Some 100%Z |}.

Definition page_b : page :=
  {| pg_contacts := Some [sample_raw 3 "c@x.io"];
     pg_has_more := Some true; pg_vid_offset := Some 200%Z |}.

Definition page_c : page :=
  {| pg_contacts := Some [sample_raw 4 "d@x.io"];
     pg_has_more := Some false; pg_vid_offset := None |}.

Definition respond (p : page) : option response :=
  Some {| status_code := 200; text := ""; json := Some p |}.

(** A list of three pages; a page is served only to the request that
    carries the cursor of the page before it. *)
Definition three_pages (n : nat) (rq : request) : option response :=
  match n with
  | 0 => if decide (rq_vidOffset rq = 0%Z) then respond page_a else None
  | 1 => if decide (rq_vidOffset rq = 100%Z) then respond page_b else None
  | 2 => if decide (rq_vidOffset rq = 200%Z) then respond page_c else None
  | _ => None
  end.

(** The token expires after the first page. *)
Definition expired_token (n : nat) (rq : request) : option response :=
  match n with
  | 0 => respond page_a
  | _ => Some {| status_code := 401; text := "expired"; json := None |}
  end.

(** The connection drops after the first page. *)
Definition broken_line (n : nat) (rq : request) : option response :=
  match n with
  | 0 => respond page_a
  | _ => None
  end.

(** The only page holds a contact whose properties are null. *)
Definition page_null : page :=
  {| pg_contacts := Some [sample_raw 1 "a@x.io"; sample_null_properties];
     pg_has_more := Some false; pg_vid_offset := None |}.

Definition null_properties (n : nat) (rq : request) : option response :=
  respond page_null.

(** Every request is answered with the same page, which says there is more. *)
Definition endless (n : nat) (rq : request) : option response := respond page_a.

(** The server fails after the first page. *)
Definition server_error (n : nat) (rq : request) : option response :=
  match n with
  | 0 => respond page_a
  | _ => Some {| status_code := 500; text := "internal error"; json := None |}
  end.

(** After the first page the body is not JSON. *)
Definition garbled (n : nat) (rq : request) : option response :=
  match n with
  | 0 => respond page_a
  | _ => Some {| status_code := 200; text := "<html>"; json := None |}
  end.

Definition sample_clock (n : nat) : string :=
  "2024-05-01 10:00:0" +:+ str (Z.of_nat n).

Definition sample_env : env :=
  {| strftime_now := sample_clock; requests_get := three_pages |}.

Definition alice : contact :=
  {| id := "1"; properties := {[ "email" := Str "alice@new.io" ]} |}.

Definition bob : contact := {| id := "2"; properties := ∅ |}.

Definition sample_records : list dict :=
  [contact_info alice (sample_clock 0); contact_info bob (sample_clock 1)].

(** The same fetch, built a few clock readings later. *)
Definition sample_records_again : list dict :=
  [contact_info alice (sample_clock 5); contact_info bob (sample_clock 6)].

(** A table of an earlier export, with a column added by hand. *)
Definition sample_existing : DataFrame :=
  {| index := 2;
     data := [ ("Contact ID", [Str "1"; Str "3"]);
               ("Email", [Str "alice@old.io"; Str "carol@old.io"]);
               ("Owner Notes", [Str "VIP"; NaN]) ] |}.

(** A table in which an identifier occurs twice. *)
Definition sample_duplicated : DataFrame :=
  {| index := 3;
     data := [ ("Contact ID", [Str "1"; Str "3"; Str "3"]);
               ("Owner Notes", [Str "VIP"; Str "a"; Str "b"]) ] |}.

(** A table without the identifier column. *)
Definition sample_without_id : DataFrame :=
  {| index := 1; data := [ ("Name", [Str "Carol"]) ] |}.

(** The merge of the sample fetch into the earlier export: the new
    email is shown and the note added by hand is kept. *)
Definition sample_merged : DataFrame :=
  {| index := 2;
     data := [ ("Contact ID", [Str "1"; Str "2"]);
               ("Email", [Str "alice@new.io"; Str ""]);
               ("First Name", [Str ""; Str ""]);
               ("Last Name", [Str ""; Str ""]);
               ("Phone", [Str ""; Str ""]);
               ("Company", [Str ""; Str ""]);
               ("Lifecycle Stage", [Str ""; Str ""]);
               ("Lead Status", [Str ""; Str ""]);
               ("Last Updated", [Str "2024-05-01 10:00:02"; Str "2024-05-01 10:00:02"]);
               ("Owner Notes", [Str "VIP"; Str ""]) ] |}.

(** A machine on which everything works: the token is valid, the
    three pages are served, and an earlier export is on disk. *)
Definition sample_probe : probe_response :=
  {| pr_status := 200; pr_text := ""; pr_json := Some (Some (Num 4)) |}.

Definition sample_item : list_item :=
  {| li_name := Some (Str "Newsletter"); li_listId := Some (Num 42);
     li_size := Some (Num 4); li_hs_list_id := None; li_hs_list_size := None |}.

Definition sample_lists (ep : endpoint) : option lists_response :=
  match ep with
  | V1 => Some {| lr_status := 200;
                  lr_json := Some {| lb_lists := Some []; lb_results := None |} |}
  | V3 => Some {| lr_status := 200;
                  lr_json := Some {| lb_lists := None;
                                     lb_results := Some [sample_item] |} |}
  end.

Definition sample_path : string := "/exports/hubspot_export.xlsx".

Definition sample_files (path : string) : file_state :=
  if bool_decide (path = sample_path)
  then Sheets [("Export Info", Some (pd_DataFrame [[("Status", Str "Created")]]));
               ("Contacts", Some sample_existing)]
  else NoFile.

Definition sample_machine : machine :=
  {| net := sample_env;
     probe := fun _ => Some sample_probe;
     lists_at := sample_lists;
     resolve := fun filename => "/exports/" +:+ filename;
     file_at := sample_files;
     writing := WriteOk;
     os_nt := false;
     startfile_raises := false |}.

(** What the fetch of the three pages returns. *)
Definition sample_fetched : list contact :=
  [ {| id := "1"; properties := {[ "email" := Str "a@x.io" ]} |};
    {| id := "2"; properties := {[ "email" := Str "b@x.io" ]} |};
    {| id := "3"; properties := {[ "email" := Str "c@x.io" ]} |};
    {| id := "4"; properties := {[ "email" := Str "d@x.io" ]} |} ].

(** The table of the earlier export with its identifiers as numbers. *)
Definition sample_reloaded : DataFrame :=
  {| index := 2;
     data := [ ("Contact ID", [Num 1; Num 3]);
               ("Email", [Str "alice@old.io"; Str "carol@old.io"]);
               ("Owner Notes", [Str "VIP"; NaN]) ] |}.

Definition reloaded_files (path : string) : file_state :=
  if bool_decide (path = sample_path)
  then Sheets [("Contacts", Some sample_reloaded)]
  else NoFile.

(** The sample clock with another server. *)
Definition sample_env_of (server : nat → request → option response) : env :=
  {| strftime_now := sample_clock; requests_get := server |}.

(** A server that refuses the token from the first request on. *)
Definition refusing (n : nat) (rq : request) : option response :=
  Some {| status_code := 401; text := "unauthorized"; json := None |}.

(** Records built without an identifier. *)
Definition sample_records_without_id : list dict :=
  [[("Email", Str "dave@new.io")]].

(** An earlier export whose contacts sheet repeats an identifier. *)
Definition duplicated_files (path : string) : file_state :=
  if bool_decide (path = sample_path)
  then Sheets [("Contacts", Some sample_duplicated)]
  else NoFile.

(** The sample machine with some of its parts replaced. *)
Definition machine_with (e : env) (answer : option probe_response)
    (files : string → file_state) (nt fails : bool) : machine :=
  {| net := e;
     probe := fun _ => answer;
     lists_at := sample_lists;
     resolve := fun filename => "/exports/" +:+ filename;
     file_at := files;
     writing := WriteOk;
     os_nt := nt;
     startfile_raises := fails |}.

(** No answer to the connection test. *)
Definition offline_machine : machine :=
  machine_with sample_env None sample_files false false.

(** Windows, where the folder cannot be opened. *)
Definition windows_machine : machine :=
  machine_with sample_env (Some sample_probe) sample_files true true.

(** The earlier export repeats an identifier. *)
Definition duplicated_machine : machine :=
  machine_with sample_env (Some sample_probe) duplicated_files false false.

(** The earlier export comes back with numbers for identifiers. *)
Definition reloaded_machine : machine :=
  machine_with sample_env (Some sample_probe) reloaded_files false false.

(** The connection test passes, the fetch is refused. *)
Definition refused_machine : machine :=
  machine_with (sample_env_of refusing) (Some sample_probe) sample_files false false.

(** * Properties *)

(** A decidable closed proposition, settled by evaluation. *)
Ltac by_compute := apply (bool_decide_unpack _); vm_compute; exact I.

(** ** Pagination *)

(** ** The conversion to the v3 shape *)

(** Contacts that are objects with usable properties are converted, one
    record each, in order. *)
Lemma v3_contact_records raws :
  Forall (fun raw => rc_properties raw ≠ NotAnObject) raws →
  ∃ out, mapM v3_contact (map JContact raws) = Some out ∧ Forall2 record_of raws out.
Proof.
  induction 1 as [|raw raws Hraw _ (out & Hout & Hrec)]; [by exists []|].
  assert (Hone : ∃ c, v3_contact (JContact raw) = Some c ∧ record_of raw c).
  { unfold v3_contact, record_of.
    destruct (rc_properties raw) as [|props|]; [| |done].
    - eexists. split; [done|]. split; [done|]. intros name. apply lookup_empty.
    - eexists. split; [done|]. split; [done|]. intros name. cbn [properties].
      rewrite lookup_fmap. by destruct (props !! name) as [[[v|]|v]|]. }
  destruct Hone as (c & Hc & Hrc). exists (c :: out).
  split; [|by constructor]. cbn [map mapM]. rewrite Hc, Hout. done.
Qed.

(** A contact the conversion cannot read stops it. *)
Lemma v3_contact_None contacts :
  mapM v3_contact contacts = None ↔ Exists malformed contacts.
Proof.
  rewrite mapM_None.
  split; intros Hex; (eapply Exists_impl; [exact Hex|]);
    intros [c|]; unfold v3_contact, malformed; try done;
    by destruct (rc_properties c).
Qed.

Module Fetch.

Section Pagination.
Variables (self : HubSpotExporter) (list_id : string) (limit : Z).

Lemma after_pages_nil w page_no offset : after_pages self list_id limit w page_no offset [] = w.
Proof. destruct w. unfold after_pages. simpl. by rewrite !app_nil_r. Qed.

Lemma after_pages_cons w page_no offset p ps :
  after_pages self list_id limit w page_no offset (p :: ps)
  = after_pages self list_id limit (after_pages self list_id limit w page_no offset [p]) (S page_no) (get_vid_offset p) ps.
Proof.
  unfold after_pages. simpl. f_equal.
  - rewrite !app_nil_r. by rewrite <- !app_assoc.
  - by rewrite <- app_assoc.
Qed.

(** A page answered 200 with a decodable body. *)
Lemma fetch_page_200 e w contacts offset page_no txt p :
  requests_get e (length (sent w)) (page_request list_id limit offset)
    = Some {| status_code := 200; text := txt; json := Some p |} →
  fetch_page self list_id limit contacts offset page_no e w
  = (Returns (if get_has_more p
              then Next (contacts ++ get_contacts p) (get_vid_offset p) (S page_no)
              else Break (contacts ++ get_contacts p)),
     after_pages self list_id limit w page_no offset [p]).
Proof.
  intros Hget. unfold fetch_page, after_pages, page_request in *.
  unfold mbind, M_bind, try_except, http_get, print_if. cbn [pages_log].
  destruct (debug self); simpl; rewrite Hget; simpl;
    destruct (get_has_more p); simpl; rewrite ?app_nil_r, <- ?app_assoc; reflexivity.
Qed.

(** While the pages say there is more, the loop goes on to the next. *)
Lemma fetch_pages_more ps : ∀ fuel e w contacts offset page_no,
  Forall (fun p => get_has_more p = true) ps →
  serves list_id limit e (length (sent w)) offset ps →
  fetch_pages (length ps + fuel) self list_id limit contacts offset page_no e w
  = fetch_pages fuel self list_id limit (contacts ++ concat (map get_contacts ps))
      (cursor_after offset ps) (page_no + length ps)
      e (after_pages self list_id limit w page_no offset ps).
Proof.
  induction ps as [|p ps IH]; intros fuel e w contacts offset page_no Hmore Hserv.
  - simpl. by rewrite after_pages_nil, app_nil_r, Nat.add_0_r.
  - apply Forall_cons in Hmore as [Hp Hmore]. destruct Hserv as [[txt Hget] Hserv].
    change (length (p :: ps) + fuel) with (S (length ps + fuel)).
    cbn [fetch_pages]. unfold mbind at 1, M_bind at 1.
    rewrite (fetch_page_200 _ _ _ _ _ _ _ Hget), Hp.
    rewrite IH; [|done|].
    + rewrite (after_pages_cons w page_no offset p ps). cbn [length map concat].
      rewrite <- app_assoc. f_equal. lia.
    + unfold after_pages. cbn [sent cursor_requests]. by rewrite length_app, Nat.add_1_r.
Qed.


Lemma serves_app e ps qs : ∀ n offset,
  serves list_id limit e n offset (ps ++ qs)
  ↔ serves list_id limit e n offset ps ∧ serves list_id limit e (n + length ps) (cursor_after offset ps) qs.
Proof.
  induction ps as [|p ps IH]; intros n offset; simpl.
  - rewrite Nat.add_0_r. tauto.
  - rewrite IH. replace (S n + length ps) with (n + S (length ps)) by lia.
    unfold cursor_after. simpl. tauto.
Qed.

Lemma cursor_requests_app ps qs : ∀ offset,
  cursor_requests list_id limit offset (ps ++ qs)
  = cursor_requests list_id limit offset ps ++ cursor_requests list_id limit (cursor_after offset ps) qs.
Proof.
  induction ps as [|p ps IH]; intros offset; simpl; [done|].
  by rewrite IH.
Qed.

Lemma sent_after_pages w page_no offset ps :
  length (sent (after_pages self list_id limit w page_no offset ps)) = length (sent w) + length ps.
Proof.
  unfold after_pages. cbn [sent]. rewrite length_app. f_equal.
  revert offset. induction ps as [|p ps IH]; intros offset; simpl; [done|].
  by rewrite IH.
Qed.

(** A page answered 401 or 404 ends the call with an empty list. *)
Lemma fetch_page_denied e w contacts offset page_no r :
  requests_get e (length (sent w)) (page_request list_id limit offset) = Some r →
  status_code r = 401%Z ∨ status_code r = 404%Z →
  ∃ w', fetch_page self list_id limit contacts offset page_no e w
        = (Returns (Return []), w')
    ∧ (status_code r = 401%Z → last (stdout w') = Some AuthFailed)
    ∧ (status_code r = 404%Z →
         ∃ pre, stdout w' = pre ++ [ListNotFound list_id; RunGetLists]).
Proof.
  intros Hget Hst. unfold fetch_page, page_request in *.
  unfold mbind, M_bind, try_except, http_get, print_if.
  destruct (debug self); simpl; rewrite Hget; simpl.
  all: destruct Hst as [Hst|Hst]; rewrite Hst; simpl.
  all: eexists; split; [reflexivity|]; simpl.
  all: split; intros Hs; try discriminate Hs.
  all: try (by rewrite last_snoc).
  all: eexists; rewrite <- app_assoc; reflexivity.
Qed.

(** A transport exception ends the loop with what was collected. *)
Lemma fetch_page_exception e w contacts offset page_no :
  requests_get e (length (sent w)) (page_request list_id limit offset) = None →
  ∃ w', fetch_page self list_id limit contacts offset page_no e w
        = (Returns (Break contacts), w')
    ∧ last (stdout w') = Some ExceptionOccurred.
Proof.
  intros Hget. unfold fetch_page, page_request in *.
  unfold mbind, M_bind, try_except, http_get, print_if.
  destruct (debug self); simpl; rewrite Hget; simpl.
  all: eexists; split; [reflexivity|]; simpl; by rewrite last_snoc.
Qed.


(** The first turns of a call, over the has-more pages [ps]. *)
Lemma get_contacts_from_list_more ps fuel e w :
  Forall (fun p => get_has_more p = true) ps →
  serves list_id limit e (length (sent w)) 0 ps →
  get_contacts_from_list (length ps + fuel) self list_id limit e w
  = (st ← fetch_pages fuel self list_id limit (concat (map get_contacts ps))
            (cursor_after 0 ps) (1 + length ps);
     match st with
     | Return v => mret v
     | Break contacts | Next contacts _ _ =>
         print (TotalRetrieved (length contacts));;
         or_raise (mapM v3_contact contacts)
     end) e (after_pages self list_id limit
               {| stdout := stdout w ++ [FetchingList list_id];
                  clock := clock w; sent := sent w |} 1 0 ps).
Proof.
  intros Hmore Hserv. unfold get_contacts_from_list.
  unfold mbind at 1, M_bind at 1. cbn [print].
  unfold mbind at 1, M_bind at 1.
  rewrite fetch_pages_more by done. reflexivity.
Qed.

(** C4. When the server answers a finite run of pages, every page but
    the last saying has-more and the last not, the call returns one
    record for each contact of the pages' contact lists, in page
    order (the identifier the vid as text, the properties flattened),
    and every request carried the cursor the page before it returned,
    the first one 0.  The contacts are objects whose properties, when
    given, are an object, as the API sends them. *)
Theorem get_contacts_from_list_concat e w init final fuel raws :
  Forall (fun p => get_has_more p = true) init →
  get_has_more final = false →
  serves list_id limit e (length (sent w)) 0 (init ++ [final]) →
  length init < fuel →
  concat (map (fun p => default [] (pg_contacts p)) (init ++ [final]))
  = map JContact raws →
  Forall (fun raw => rc_properties raw ≠ NotAnObject) raws →
  ∃ out w', get_contacts_from_list fuel self list_id limit e w = (Returns out, w')
    ∧ Forall2 record_of raws out
    ∧ sent w' = sent w ++ cursor_requests list_id limit 0 (init ++ [final]).
Proof.
  intros Hmore Hfinal Hserv Hfuel Hraws Hshape.
  destruct (v3_contact_records raws Hshape) as (out & Hout & Hrec).
  apply serves_app in Hserv as [Hinit [[txt Hget] _]].
  replace fuel with (length init + S (fuel - S (length init))) by lia.
  rewrite get_contacts_from_list_more by done.
  set (w1 := after_pages self list_id limit _ 1 0 init).
  assert (Hlen : length (sent w1) = length (sent w) + length init)
    by (unfold w1; by rewrite sent_after_pages).
  rewrite <- Hlen in Hget.
  unfold mbind at 1, M_bind at 1. cbn [fetch_pages].
  unfold mbind at 1, M_bind at 1.
  rewrite (fetch_page_200 _ _ _ _ _ _ _ Hget), Hfinal.
  assert (Hall : concat (map get_contacts init) ++ get_contacts final
                 = map JContact raws).
  { rewrite <- Hraws, map_app, concat_app. cbn [map concat]. by rewrite app_nil_r. }
  exists out. eexists. split_and!; [|done|].
  - unfold mbind, M_bind. cbn [print mret M_ret]. rewrite Hall, Hout. reflexivity.
  - rewrite cursor_requests_app. cbn. by rewrite <- app_assoc.
Qed.

(** C6. When a page request is answered 401 or 404, after any number of
    has-more pages, the call returns the empty list, having printed
    the condition. *)
Theorem get_contacts_from_list_denied e w init r fuel :
  Forall (fun p => get_has_more p = true) init →
  serves list_id limit e (length (sent w)) 0 init →
  requests_get e (length (sent w) + length init)
    (page_request list_id limit (cursor_after 0 init)) = Some r →
  status_code r = 401%Z ∨ status_code r = 404%Z →
  length init < fuel →
  ∃ w', get_contacts_from_list fuel self list_id limit e w = (Returns [], w')
    ∧ (status_code r = 401%Z → last (stdout w') = Some AuthFailed)
    ∧ (status_code r = 404%Z →
         ∃ pre, stdout w' = pre ++ [ListNotFound list_id; RunGetLists]).
Proof.
  intros Hmore Hinit Hget Hst Hfuel.
  replace fuel with (length init + S (fuel - S (length init))) by lia.
  rewrite get_contacts_from_list_more by done.
  set (w1 := after_pages self list_id limit _ 1 0 init).
  assert (Hlen : length (sent w1) = length (sent w) + length init)
    by (unfold w1; by rewrite sent_after_pages).
  rewrite <- Hlen in Hget.
  destruct (fetch_page_denied e w1 (concat (map get_contacts init))
              (cursor_after 0 init) (1 + length init) r Hget Hst)
    as (w' & Hrun & H401 & H404).
  exists w'. split; [|done].
  unfold mbind at 1, M_bind at 1. cbn [fetch_pages].
  unfold mbind at 1, M_bind at 1. by rewrite Hrun.
Qed.

(** C7. When a page request raises a transport exception, after any
    number of has-more pages, the call does not raise: it returns one
    record for each contact of the contact lists of the pages fetched
    before, in page order.  The contacts are objects whose properties,
    when given, are an object, as the API sends them. *)
Theorem get_contacts_from_list_partial e w init fuel raws :
  Forall (fun p => get_has_more p = true) init →
  serves list_id limit e (length (sent w)) 0 init →
  requests_get e (length (sent w) + length init)
    (page_request list_id limit (cursor_after 0 init)) = None →
  length init < fuel →
  concat (map (fun p => default [] (pg_contacts p)) init) = map JContact raws →
  Forall (fun raw => rc_properties raw ≠ NotAnObject) raws →
  ∃ out w', get_contacts_from_list fuel self list_id limit e w = (Returns out, w')
    ∧ Forall2 record_of raws out
    ∧ ExceptionOccurred ∈ stdout w'.
Proof.
  intros Hmore Hinit Hget Hfuel Hraws Hshape.
  destruct (v3_contact_records raws Hshape) as (out & Hout & Hrec).
  replace fuel with (length init + S (fuel - S (length init))) by lia.
  rewrite get_contacts_from_list_more by done.
  set (w1 := after_pages self list_id limit _ 1 0 init).
  assert (Hlen : length (sent w1) = length (sent w) + length init)
    by (unfold w1; by rewrite sent_after_pages).
  rewrite <- Hlen in Hget.
  destruct (fetch_page_exception e w1 (concat (map get_contacts init))
              (cursor_after 0 init) (1 + length init) Hget)
    as (w' & Hrun & Hlast).
  change (concat (map get_contacts init) = map JContact raws) in Hraws.
  exists out. eexists. split_and!; [|done|].
  - unfold mbind at 1, M_bind at 1. cbn [fetch_pages].
    unfold mbind at 1, M_bind at 1. rewrite Hrun.
    unfold mbind, M_bind. cbn [print mret M_ret]. rewrite Hraws, Hout. reflexivity.
  - cbn. apply elem_of_app. left. apply last_Some_elem_of. exact Hlast.
Qed.

End Pagination.

End Fetch.

(** ** Association lists and frames *)

Section Assoc.
Context {V : Type}.
Implicit Types (l : list (string * V)) (k : string) (v : V).

Lemma assoc_Some_elem l k v : assoc k l = Some v → (k, v) ∈ l.
Proof.
  induction l as [|[k' v'] l IH]; simpl; [done|].
  case_decide; intros Hv.
  - injection Hv as ->. subst. apply list_elem_of_here.
  - apply list_elem_of_further. auto.
Qed.

Lemma assoc_is_Some l k : is_Some (assoc k l) ↔ k ∈ map fst l.
Proof.
  induction l as [|[k' v'] l IH]; simpl.
  - split; [by intros [? ?]|by intros ?%elem_of_nil].
  - case_decide; subst.
    + split; [intros _; apply list_elem_of_here|eauto].
    + rewrite IH, elem_of_cons. split; [tauto|]. by intros [->|].
Qed.

Lemma assoc_None l k : assoc k l = None ↔ k ∉ map fst l.
Proof. rewrite <- assoc_is_Some, eq_None_not_Some. tauto. Qed.

Lemma assoc_app l1 l2 k :
  assoc k (l1 ++ l2) = match assoc k l1 with Some v => Some v | None => assoc k l2 end.
Proof.
  induction l1 as [|[k' v'] l1 IH]; simpl; [done|].
  by case_decide.
Qed.

Lemma assoc_set_assoc_eq l k v : assoc k (set_assoc k v l) = Some v.
Proof.
  induction l as [|[k' v'] l IH]; simpl.
  - by rewrite decide_True.
  - case_decide; simpl; [by rewrite decide_True|by rewrite decide_False].
Qed.

Lemma assoc_set_assoc_ne l k k' v : k ≠ k' → assoc k' (set_assoc k v l) = assoc k' l.
Proof.
  intros Hne. induction l as [|[k0 v0] l IH]; simpl.
  - by rewrite decide_False.
  - case_decide; simpl; subst.
    + by rewrite !decide_False.
    + by rewrite IH.
Qed.

Lemma keys_set_assoc_in l k v : k ∈ map fst l → map fst (set_assoc k v l) = map fst l.
Proof.
  induction l as [|[k0 v0] l IH]; simpl; [by intros ?%elem_of_nil|].
  intros Hin. case_decide; simpl; [done|].
  f_equal. apply IH. apply elem_of_cons in Hin as [-> | ]; done.
Qed.

Lemma keys_set_assoc_notin l k v : k ∉ map fst l → map fst (set_assoc k v l) = map fst l ++ [k].
Proof.
  induction l as [|[k0 v0] l IH]; simpl; [done|].
  intros Hin. apply not_elem_of_cons in Hin as [Hne Hin].
  rewrite decide_False by done. simpl. by rewrite IH.
Qed.
End Assoc.

Lemma getitem_is_Some df c : is_Some (getitem df c) ↔ c ∈ columns df.
Proof. apply assoc_is_Some. Qed.

Lemma getitem_setitem_eq df c vals : getitem (setitem df c vals) c = Some vals.
Proof. apply assoc_set_assoc_eq. Qed.

Lemma getitem_setitem_ne df c c' vals :
  c ≠ c' → getitem (setitem df c vals) c' = getitem df c'.
Proof. apply assoc_set_assoc_ne. Qed.

(** ** The loop over the custom columns *)

Section CustomColumns.
Variable custom_data : list (cell * dict).

Lemma add_custom_columns_spec custom_columns : ∀ new_df ids,
  getitem new_df "Contact ID" = Some ids →
  "Contact ID" ∉ custom_columns →
  ∃ out,
    add_custom_columns custom_data custom_columns new_df = Some out
    ∧ index out = index new_df
    ∧ getitem out "Contact ID" = Some ids
    ∧ (∀ c, c ∈ custom_columns →
         getitem out c = Some (map (custom_lookup custom_data c) ids))
    ∧ (∀ c, c ∉ custom_columns → getitem out c = getitem new_df c)
    ∧ (NoDup custom_columns →
       (∀ c, c ∈ custom_columns → c ∉ columns new_df) →
       columns out = columns new_df ++ custom_columns).
Proof.
  induction custom_columns as [|col rest IH]; intros new_df ids Hids Hnot.
  - exists new_df. simpl. split_and!; try done.
    + by intros c ?%elem_of_nil.
    + intros _ _. by rewrite app_nil_r.
  - apply not_elem_of_cons in Hnot as [Hne Hnot]. simpl. rewrite Hids. simpl.
    set (df1 := setitem new_df col (map (custom_lookup custom_data col) ids)).
    destruct (IH df1 ids) as (out & Hrun & Hidx & Hid & Hin & Hout & Hcols).
    { unfold df1. by rewrite getitem_setitem_ne. }
    { done. }
    exists out. split_and!; try done.
    + intros c Hc. destruct (decide (c ∈ rest)) as [Hr|Hr]; [by apply Hin|].
      apply elem_of_cons in Hc as [-> | ]; [|done].
      rewrite Hout by done. apply getitem_setitem_eq.
    + intros c Hc. apply not_elem_of_cons in Hc as [Hc1 Hc2].
      rewrite Hout by done. by apply getitem_setitem_ne.
    + intros Hnd Hfresh. apply NoDup_cons in Hnd as [Hcol Hnd].
      assert (Hk : columns df1 = columns new_df ++ [col]).
      { apply keys_set_assoc_notin. apply Hfresh, list_elem_of_here. }
      rewrite Hcols, Hk; [by rewrite <- app_assoc|done|].
      intros c Hc. rewrite Hk. rewrite elem_of_app, list_elem_of_singleton.
      intros [Hc' | ->]; [|done].
      by apply (Hfresh c); [apply list_elem_of_further|].
Qed.

Lemma add_custom_columns_KeyError col rest new_df :
  getitem new_df "Contact ID" = None →
  add_custom_columns custom_data (col :: rest) new_df = None.
Proof. intros H. simpl. by rewrite H. Qed.
End CustomColumns.

(** ** The custom data of the existing table *)

Lemma assoc_imap_NoDup {V : Type} (ids : list cell) : ∀ (f : nat → V) k x,
  NoDup ids → ids !! k = Some x →
  assoc x (imap (fun i y => (y, f i)) ids) = Some (f k).
Proof.
  induction ids as [|y ids IH]; intros f k x Hnd Hk; [done|].
  apply NoDup_cons in Hnd as [Hy Hnd]. simpl.
  destruct k as [|k]; simpl in Hk.
  - injection Hk as ->. by rewrite decide_True.
  - rewrite decide_False.
    + apply (IH (f ∘ S) k x Hnd Hk).
    + intros ->. apply Hy. by eapply list_elem_of_lookup_2.
Qed.

Lemma assoc_imap_None {V : Type} (ids : list cell) : ∀ (f : nat → V) x,
  x ∉ ids → assoc x (imap (fun i y => (y, f i)) ids) = None.
Proof.
  induction ids as [|y ids IH]; intros f x Hx; [done|].
  apply not_elem_of_cons in Hx as [Hne Hx]. simpl.
  rewrite decide_False by done. apply (IH (f ∘ S) x Hx).
Qed.

Lemma select_Some df labels :
  (∀ c, c ∈ labels → c ∈ columns df) →
  select df labels
  = Some {| index := index df;
            data := map (fun c => (c, default [] (getitem df c))) labels |}.
Proof.
  intros Hin. unfold select.
  assert (Hm : mapM (fun c => vals ← getitem df c; Some (c, vals)) labels
               = Some (map (fun c => (c, default [] (getitem df c))) labels)).
  { induction labels as [|c labels IH]; [done|].
    destruct (proj2 (getitem_is_Some df c)) as [vals Hc].
    { apply Hin, list_elem_of_here. }
    cbn [mapM map]. rewrite Hc. simpl. rewrite IH; [done|].
    intros c' Hc'. by apply Hin, list_elem_of_further. }
  by rewrite Hm.
Qed.

Lemma filter_key_notin {V : Type} (f : string → V) (k : string) (l : list string) :
  k ∉ l →
  filter (fun p : string * V => p.1 = k) (map (fun c => (c, f c)) l) = []
  ∧ filter (fun p : string * V => p.1 ≠ k) (map (fun c => (c, f c)) l)
    = map (fun c => (c, f c)) l.
Proof.
  induction l as [|c l IH]; intros Hk; [done|].
  apply not_elem_of_cons in Hk as [Hne Hk]. destruct (IH Hk) as [IH1 IH2].
  cbn [map]. split.
  - rewrite filter_cons_False; [done|]. simpl. congruence.
  - rewrite filter_cons_True; [by rewrite IH2|]. simpl. congruence.
Qed.

Lemma assoc_map_key {V : Type} (f : string → V) (l : list string) (c : string) :
  c ∈ l → assoc c (map (fun c => (c, f c)) l) = Some (f c).
Proof.
  induction l as [|c' l IH]; intros Hc; [by apply elem_of_nil in Hc|].
  cbn [map assoc]. case_decide; subst; [done|].
  apply IH. apply elem_of_cons in Hc as [-> | ]; done.
Qed.

Section CustomData.
Variables (existing_df : DataFrame) (custom_columns : list string) (ids : list cell).
Hypothesis Hids : getitem existing_df "Contact ID" = Some ids.
Hypothesis Hcols : ∀ c, c ∈ custom_columns → c ∈ columns existing_df.
Hypothesis Hnot : "Contact ID" ∉ custom_columns.

Lemma custom_data_of_eq :
  custom_data_of existing_df custom_columns
  = if decide (NoDup ids)
    then Some (imap (fun i x =>
                (x, map (fun c => (c, default NaN (default [] (getitem existing_df c) !! i)))
                      custom_columns)) ids)
    else None.
Proof.
  unfold custom_data_of. rewrite select_Some.
  2:{ intros c [-> | Hc]%elem_of_cons; [|by apply Hcols].
      apply getitem_is_Some. by rewrite Hids. }
  cbn [mbind option_bind]. unfold set_index. cbn [data map].
  rewrite filter_cons_True by done. rewrite filter_cons_False by (simpl; congruence).
  destruct (filter_key_notin (fun c => default [] (getitem existing_df c))
              "Contact ID" custom_columns Hnot) as [-> ->].
  rewrite Hids. unfold to_dict_index. simpl.
  destruct (decide (NoDup ids)); [|done]. f_equal. apply imap_ext. intros i x _.
  f_equal. unfold row_dict. cbn [data]. by rewrite map_map.
Qed.

(** The custom data exist exactly when the existing identifiers are
    distinct; a lookup gives the cell of the identifier's row, and the
    empty string for an identifier the table does not have. *)
Lemma custom_data_of_spec :
  NoDup ids →
  ∃ custom_data,
    custom_data_of existing_df custom_columns = Some custom_data
    ∧ (∀ k x c vals, ids !! k = Some x → c ∈ custom_columns →
         getitem existing_df c = Some vals →
         custom_lookup custom_data c x = default NaN (vals !! k))
    ∧ (∀ x c, x ∉ ids → custom_lookup custom_data c x = Str "").
Proof.
  intros Hnd. rewrite custom_data_of_eq, decide_True by done.
  eexists. split; [reflexivity|]. split.
  - intros k x c vals Hk Hc Hvals. unfold custom_lookup, dict_get.
    rewrite (assoc_imap_NoDup ids _ k x Hnd Hk). simpl.
    rewrite (assoc_map_key _ _ _ Hc). simpl. by rewrite Hvals.
  - intros x c Hx. unfold custom_lookup, dict_get.
    by rewrite assoc_imap_None.
Qed.

Lemma custom_data_of_ValueError :
  ¬ NoDup ids → custom_data_of existing_df custom_columns = None.
Proof. intros Hnd. by rewrite custom_data_of_eq, decide_False. Qed.
End CustomData.

(** ** The branches of the merge *)

Section Merge.
Variables (e : env) (w : world) (new_contacts : list dict).

Lemma merge_contact_data_None :
  merge_contact_data new_contacts None e w = (Returns (pd_DataFrame new_contacts), w).
Proof. reflexivity. Qed.

Lemma merge_contact_data_empty existing :
  empty existing = true →
  merge_contact_data new_contacts (Some existing) e w
  = (Returns (pd_DataFrame new_contacts), w).
Proof. intros H. unfold merge_contact_data. by rewrite H. Qed.

Lemma merge_contact_data_no_id existing :
  empty existing = false →
  "Contact ID" ∉ columns existing →
  merge_contact_data new_contacts (Some existing) e w
  = (Returns (pd_DataFrame new_contacts),
     {| stdout := stdout w ++ [NoContactIdColumn]; clock := clock w; sent := sent w |}).
Proof.
  intros H Hno. unfold merge_contact_data. rewrite H.
  by rewrite decide_True.
Qed.

Lemma merge_contact_data_no_new existing :
  empty existing = false →
  "Contact ID" ∈ columns existing →
  empty (pd_DataFrame new_contacts) = true →
  ∃ w', merge_contact_data new_contacts (Some existing) e w = (Returns existing, w')
    ∧ last (stdout w') = Some NoNewData.
Proof.
  intros H Hid Hnew. unfold merge_contact_data. rewrite H.
  rewrite decide_False by (by intros ?). rewrite Hnew.
  unfold mbind, M_bind, print_if.
  destruct (bool_decide _); simpl; eexists; (split; [reflexivity|]);
    simpl; by rewrite last_snoc.
Qed.

Lemma custom_columns_of_elem hubspot_columns existing c :
  c ∈ custom_columns_of hubspot_columns existing
  ↔ (c ∉ hubspot_columns) ∧ (c ∈ columns existing).
Proof. unfold custom_columns_of. by rewrite list_elem_of_filter. Qed.

(** With new rows and an existing table keyed by distinct identifiers,
    the result is the new frame, stamped, with the custom columns
    looked up in the existing table. *)
Lemma merge_contact_data_merges existing new_ids ids :
  empty existing = false →
  empty (pd_DataFrame new_contacts) = false →
  getitem (pd_DataFrame new_contacts) "Contact ID" = Some new_ids →
  getitem existing "Contact ID" = Some ids →
  NoDup ids →
  let custom_columns := custom_columns_of (columns (pd_DataFrame new_contacts)) existing in
  ∃ out w' custom_data,
    merge_contact_data new_contacts (Some existing) e w = (Returns out, w')
    ∧ clock w' = S (clock w) ∧ sent w' = sent w
    ∧ custom_data_of existing custom_columns = Some custom_data
    ∧ add_custom_columns custom_data custom_columns
        (setitem_scalar (pd_DataFrame new_contacts) "Last Updated"
           (Str (strftime_now e (clock w)))) = Some out
    ∧ getitem out "Contact ID" = Some new_ids.
Proof.
  intros H Hnew Hnid Hid Hnd C.
  assert (HidC : "Contact ID" ∉ C).
  { intros [Hc _]%custom_columns_of_elem. apply Hc, getitem_is_Some. by rewrite Hnid. }
  assert (HCin : ∀ c, c ∈ C → c ∈ columns existing).
  { by intros c [_ Hc]%custom_columns_of_elem. }
  destruct (custom_data_of_spec existing C ids Hid HCin HidC Hnd) as (cd & Hcd & _).
  set (df1 := setitem_scalar (pd_DataFrame new_contacts) "Last Updated"
                (Str (strftime_now e (clock w)))).
  assert (Hid1 : getitem df1 "Contact ID" = Some new_ids).
  { unfold df1, setitem_scalar. by rewrite getitem_setitem_ne. }
  destruct (add_custom_columns_spec cd C df1 new_ids Hid1 HidC)
    as (out & Hout & _ & Hoid & _).
  unfold merge_contact_data. rewrite H.
  rewrite decide_False.
  2:{ intros Hno. apply Hno, getitem_is_Some. by rewrite Hid. }
  rewrite Hnew. fold C. rewrite Hcd.
  unfold mbind, M_bind, print_if, datetime_now, or_raise, mret, M_ret.
  destruct (bool_decide (C ≠ [])); simpl; fold df1; rewrite Hout, Hid, Hoid; simpl.
  all: match goal with |- context [bool_decide ?P] => destruct (bool_decide P) end; simpl.
  all: exists out; eexists; exists cd; split; [reflexivity|]; simpl; done.
Qed.

(** Identifiers repeated in the existing table make [to_dict] raise. *)
Lemma merge_contact_data_ValueError existing new_ids ids :
  empty existing = false →
  empty (pd_DataFrame new_contacts) = false →
  getitem (pd_DataFrame new_contacts) "Contact ID" = Some new_ids →
  getitem existing "Contact ID" = Some ids →
  ¬ NoDup ids →
  ∃ w', merge_contact_data new_contacts (Some existing) e w = (Raises, w').
Proof.
  intros H Hnew Hnid Hid Hnd.
  set (C := custom_columns_of (columns (pd_DataFrame new_contacts)) existing).
  assert (HidC : "Contact ID" ∉ C).
  { intros [Hc _]%custom_columns_of_elem. apply Hc, getitem_is_Some. by rewrite Hnid. }
  assert (HCin : ∀ c, c ∈ C → c ∈ columns existing).
  { by intros c [_ Hc]%custom_columns_of_elem. }
  unfold merge_contact_data. rewrite H.
  rewrite decide_False.
  2:{ intros Hno. apply Hno, getitem_is_Some. by rewrite Hid. }
  rewrite Hnew. fold C.
  rewrite (custom_data_of_ValueError existing C ids Hid HCin HidC Hnd).
  unfold mbind, M_bind, print_if, or_raise.
  destruct (bool_decide (C ≠ [])); simpl; eexists; reflexivity.
Qed.
End Merge.

(** ** Frames built from records *)

Lemma unique_ext l : ∀ s1 s2, (∀ x, x ∈ s1 ↔ x ∈ s2) → unique s1 l = unique s2 l.
Proof.
  induction l as [|x l IH]; intros s1 s2 Hs; [done|]. simpl.
  destruct (decide (x ∈ s1)) as [H1|H1], (decide (x ∈ s2)) as [H2|H2].
  - by apply IH.
  - by apply Hs in H1.
  - by apply Hs in H2.
  - f_equal. apply IH. intros y. rewrite !elem_of_cons, Hs. tauto.
Qed.

Lemma unique_app a : ∀ seen b,
  unique seen (a ++ b) = unique seen a ++ unique (a ++ seen) b.
Proof.
  induction a as [|x a IH]; intros seen b; [done|]. simpl.
  destruct (decide (x ∈ seen)) as [Hx|Hx].
  - rewrite IH. f_equal. apply unique_ext. intros y.
    rewrite elem_of_cons, !elem_of_app. split; [tauto|]. intros [-> | ]; tauto.
  - simpl. rewrite IH. do 2 f_equal. apply unique_ext. intros y.
    rewrite elem_of_cons, !elem_of_app, elem_of_cons. tauto.
Qed.

Lemma unique_seen l : ∀ seen, (∀ x, x ∈ l → x ∈ seen) → unique seen l = [].
Proof.
  induction l as [|x l IH]; intros seen Hl; [done|]. simpl.
  rewrite decide_True by apply Hl, list_elem_of_here.
  apply IH. intros y Hy. by apply Hl, list_elem_of_further.
Qed.

Lemma pd_DataFrame_column_length records c vals :
  getitem (pd_DataFrame records) c = Some vals → length vals = length records.
Proof.
  intros H%assoc_Some_elem. cbn [pd_DataFrame data] in H.
  apply list_elem_of_fmap in H as (c' & [= _ ->] & _). apply length_map.
Qed.

Lemma pd_DataFrame_nil : pd_DataFrame [] = {| index := 0; data := [] |}.
Proof. reflexivity. Qed.

Section Fetched.
Variable new_contacts : list dict.
Hypothesis Hshape : Forall is_contact_info new_contacts.
Hypothesis Hnonempty : new_contacts ≠ [].

Lemma fetched_data :
  data (pd_DataFrame new_contacts)
  = map (fun c => (c, map (fun r => dict_get r c NaN) new_contacts)) fetched_columns.
Proof.
  unfold pd_DataFrame. cbn [data]. f_equal.
  destruct new_contacts as [|r rest]; [done|].
  apply Forall_cons in Hshape as [Hr Hrest].
  cbn [map concat]. rewrite Hr, unique_app, app_nil_r.
  rewrite (unique_seen (concat _)); [by vm_compute|].
  intros x (ks & (r' & <- & Hr')%in_map_iff & Hx)%list_elem_of_In%in_concat.
  rewrite Forall_forall in Hrest. apply list_elem_of_In in Hr', Hx.
  by rewrite (Hrest r' Hr') in Hx.
Qed.

Lemma fetched_frame_columns : columns (pd_DataFrame new_contacts) = fetched_columns.
Proof.
  unfold columns. rewrite fetched_data, map_map. cbn [fst]. apply map_id.
Qed.

Lemma fetched_getitem c :
  c ∈ fetched_columns →
  getitem (pd_DataFrame new_contacts) c
  = Some (map (fun r => dict_get r c NaN) new_contacts).
Proof.
  intros Hc. unfold getitem. rewrite fetched_data.
  exact (assoc_map_key (fun c => map (fun r => dict_get r c NaN) new_contacts) _ c Hc).
Qed.

Lemma fetched_not_empty : empty (pd_DataFrame new_contacts) = false.
Proof.
  unfold empty. rewrite fetched_data. cbn [pd_DataFrame index].
  destruct new_contacts; done.
Qed.
End Fetched.

(** ** The merged frame *)

Lemma wf_column_length df c vals :
wf_df df → getitem df c = Some vals → length vals = index df.
Proof.
intros [_ Hlen] H%assoc_Some_elem. rewrite Forall_forall in Hlen.
apply (Hlen _ H).
Qed.

Lemma column_not_empty df c vals :
getitem df c = Some vals → length vals = index df → vals ≠ [] → empty df = false.
Proof.
intros Hc Hlen Hne. unfold empty, getitem in *.
destruct (data df); [done|]. destruct vals; [done|]. simpl in Hlen.
rewrite <- Hlen. done.
Qed.

Section Merged.
Variables (e : env) (w : world) (new_contacts : list dict) (existing : DataFrame).
Variables (new_ids ids : list cell).
Hypothesis Hexisting : empty existing = false.
Hypothesis Hnew : empty (pd_DataFrame new_contacts) = false.
Hypothesis Hnew_ids : getitem (pd_DataFrame new_contacts) "Contact ID" = Some new_ids.
Hypothesis Hids : getitem existing "Contact ID" = Some ids.

Lemma merge_contact_data_returns_NoDup out w' :
  merge_contact_data new_contacts (Some existing) e w = (Returns out, w') → NoDup ids.
Proof.
  intros Hrun. destruct (decide (NoDup ids)) as [|Hnd]; [done|].
  destruct (merge_contact_data_ValueError e w new_contacts existing new_ids ids
              Hexisting Hnew Hnew_ids Hids Hnd) as [w1 Hraise].
  congruence.
Qed.

Lemma merge_contact_data_frame out w' :
  merge_contact_data new_contacts (Some existing) e w = (Returns out, w') →
  let custom_columns := custom_columns_of (columns (pd_DataFrame new_contacts)) existing in
  let stamped := setitem_scalar (pd_DataFrame new_contacts) "Last Updated"
                   (Str (strftime_now e (clock w))) in
  index out = length new_contacts
  ∧ getitem out "Contact ID" = Some new_ids
  ∧ (∀ c vals, c ∈ custom_columns → getitem existing c = Some vals →
       ∃ out_c, getitem out c = Some out_c
         ∧ length out_c = length new_ids
         ∧ ∀ j x, new_ids !! j = Some x →
             (∀ k, ids !! k = Some x → out_c !! j = Some (default NaN (vals !! k)))
             ∧ (x ∉ ids → out_c !! j = Some (Str "")))
  ∧ (∀ c, c ∉ custom_columns → getitem out c = getitem stamped c)
  ∧ (NoDup (columns existing) →
     "Last Updated" ∈ columns (pd_DataFrame new_contacts) →
     columns out = columns (pd_DataFrame new_contacts) ++ custom_columns).
Proof.
  intros Hrun C stamped.
  pose proof (merge_contact_data_returns_NoDup out w' Hrun) as Hnd.
  destruct (merge_contact_data_merges e w new_contacts existing new_ids ids
              Hexisting Hnew Hnew_ids Hids Hnd)
    as (out0 & w0 & cd & Hrun0 & _ & _ & Hcd & Hadd & _).
  rewrite Hrun in Hrun0. injection Hrun0 as <- <-.
  fold C in Hcd, Hadd. fold stamped in Hadd.
  assert (HidC : "Contact ID" ∉ C).
  { intros [Hc _]%custom_columns_of_elem. apply Hc, getitem_is_Some. by rewrite Hnew_ids. }
  assert (HCin : ∀ c, c ∈ C → c ∈ columns existing).
  { by intros c [_ Hc]%custom_columns_of_elem. }
  destruct (custom_data_of_spec existing C ids Hids HCin HidC Hnd)
    as (cd' & Hcd' & Hfound & Hmissing).
  rewrite Hcd in Hcd'. injection Hcd' as <-.
  assert (Hid1 : getitem stamped "Contact ID" = Some new_ids).
  { unfold stamped, setitem_scalar. by rewrite getitem_setitem_ne. }
  destruct (add_custom_columns_spec cd C stamped new_ids Hid1 HidC)
    as (out' & Hadd' & Hidx & Hoid & Hin & Hother & Hcols).
  rewrite Hadd in Hadd'. injection Hadd' as <-.
  split_and!; try done.
  - intros c vals Hc Hvals. eexists. split; [by apply Hin|].
    split; [by rewrite length_map|].
    intros j x Hj. rewrite list_lookup_fmap, Hj. simpl. split.
    + intros k Hk. f_equal. by apply (Hfound k x c vals).
    + intros Hx. f_equal. by apply Hmissing.
  - intros Hnd_cols Hlu. rewrite Hcols.
    + f_equal. unfold stamped, setitem_scalar, setitem, columns. cbn [data].
      by apply keys_set_assoc_in.
    + by apply NoDup_filter.
    + intros c [Hc _]%custom_columns_of_elem.
      unfold stamped, setitem_scalar, setitem, columns. cbn [data].
      by rewrite keys_set_assoc_in.
Qed.
End Merged.

(** ** The merge, claim by claim *)

Section MergeClaims.
Variables (e : env) (w : world).

(** C1. For a fetch and an existing table that has the 'Contact ID'
    column, and an identifier [i] present in both: in every table the
    merge returns, each row of [i] holds, in each custom column (a
    column of the existing table that the fetched columns lack), the
    value the existing table holds for [i] in that column.  The merge
    returns a table when the existing identifiers are distinct. *)
Theorem merge_contact_data_keeps_custom_values
    new_contacts existing new_ids ids i c vals :
  wf_df existing →
  getitem (pd_DataFrame new_contacts) "Contact ID" = Some new_ids →
  getitem existing "Contact ID" = Some ids →
  i ∈ new_ids →
  i ∈ ids →
  c ∈ custom_columns_of (columns (pd_DataFrame new_contacts)) existing →
  getitem existing c = Some vals →
  (NoDup ids →
   ∃ out w', merge_contact_data new_contacts (Some existing) e w = (Returns out, w'))
  ∧ ∀ out w',
      merge_contact_data new_contacts (Some existing) e w = (Returns out, w') →
      ∃ out_c,
        getitem out "Contact ID" = Some new_ids
        ∧ getitem out c = Some out_c
        ∧ ∀ j k, new_ids !! j = Some i → ids !! k = Some i →
            is_Some (vals !! k) ∧ out_c !! j = vals !! k.
Proof.
  intros Hwf Hnew_ids Hids Hi_new Hi Hc Hvals.
  assert (Hexisting : empty existing = false).
  { apply (column_not_empty existing "Contact ID" ids Hids).
    - by apply (wf_column_length existing "Contact ID").
    - intros ->. by apply elem_of_nil in Hi. }
  assert (Hnew : empty (pd_DataFrame new_contacts) = false).
  { apply (column_not_empty _ "Contact ID" new_ids Hnew_ids).
    - by apply (pd_DataFrame_column_length _ "Contact ID").
    - intros ->. by apply elem_of_nil in Hi_new. }
  split.
  - intros Hnd.
    destruct (merge_contact_data_merges e w new_contacts existing new_ids ids
                Hexisting Hnew Hnew_ids Hids Hnd) as (out & w' & _ & Hrun & _).
    by exists out, w'.
  - intros out w' Hrun.
    destruct (merge_contact_data_frame e w new_contacts existing new_ids ids
                Hexisting Hnew Hnew_ids Hids out w' Hrun)
      as (_ & Hoid & Hcustom & _).
    destruct (Hcustom c vals Hc Hvals) as (out_c & Hout_c & _ & Hrows).
    exists out_c. split_and!; try done.
    intros j k Hj Hk. destruct (Hrows j i Hj) as [Hfound _].
    assert (Hlt : k < length vals).
    { rewrite (wf_column_length existing c vals Hwf Hvals).
      rewrite <- (wf_column_length existing "Contact ID" ids Hwf Hids).
      by eapply lookup_lt_Some. }
    apply lookup_lt_is_Some_2 in Hlt as [v Hv].
    split; [by exists v|]. rewrite (Hfound k Hk), Hv. done.
Qed.

(** C2, amended. For a non-empty fetch and a non-empty existing table
    that has the 'Contact ID' column, an identifier of the existing
    table that is not among the fetched ones has no row in any table
    the merge returns; the merge returns a table when the records
    carry 'Contact ID' and the existing identifiers are distinct. *)
Theorem merge_contact_data_drops_missing_ids
    new_contacts existing ids i :
  empty (pd_DataFrame new_contacts) = false →
  empty existing = false →
  getitem existing "Contact ID" = Some ids →
  i ∈ ids →
  i ∉ default [] (getitem (pd_DataFrame new_contacts) "Contact ID") →
  (NoDup ids → "Contact ID" ∈ columns (pd_DataFrame new_contacts) →
   ∃ out w', merge_contact_data new_contacts (Some existing) e w = (Returns out, w'))
  ∧ ∀ out w',
      merge_contact_data new_contacts (Some existing) e w = (Returns out, w') →
      ∃ out_ids, getitem out "Contact ID" = Some out_ids ∧ i ∉ out_ids.
Proof.
  intros Hnew Hexisting Hids Hi Hmiss. split.
  - intros Hnd [new_ids Hnew_ids]%getitem_is_Some.
    destruct (merge_contact_data_merges e w new_contacts existing new_ids ids
                Hexisting Hnew Hnew_ids Hids Hnd) as (out & w' & _ & Hrun & _).
    by exists out, w'.
  - intros out w' Hrun.
    destruct (getitem (pd_DataFrame new_contacts) "Contact ID") as [new_ids|] eqn:Hnew_ids.
    + destruct (merge_contact_data_frame e w new_contacts existing new_ids ids
                  Hexisting Hnew Hnew_ids Hids out w' Hrun) as (_ & Hoid & _).
      by exists new_ids.
    + exfalso. revert Hrun. unfold merge_contact_data.
      rewrite Hexisting, Hnew.
      rewrite decide_False.
      2:{ intros Hno. apply Hno, getitem_is_Some. by rewrite Hids. }
      set (C := custom_columns_of _ existing).
      assert (HC : "Contact ID" ∈ C).
      { apply custom_columns_of_elem. split.
        - by apply assoc_None.
        - apply getitem_is_Some. by rewrite Hids. }
      unfold mbind, M_bind, print_if, datetime_now, or_raise.
      destruct C as [|c0 C']; [by apply elem_of_nil in HC|].
      rewrite bool_decide_true by done. cbn [print].
      destruct (custom_data_of existing (c0 :: C')) as [cd|]; [|done].
      cbn -[add_custom_columns setitem_scalar pd_DataFrame].
      rewrite add_custom_columns_KeyError; [done|].
      unfold setitem_scalar. by rewrite getitem_setitem_ne.
Qed.

(** C3. For a non-empty existing table without the 'Contact ID'
    column the merge is skipped: the result is the frame of the new
    records as it is, nothing is read from the clock, and only the
    warning is printed. *)
Theorem merge_contact_data_without_id_column new_contacts existing :
  empty existing = false →
  "Contact ID" ∉ columns existing →
  merge_contact_data new_contacts (Some existing) e w
  = (Returns (pd_DataFrame new_contacts),
     {| stdout := stdout w ++ [NoContactIdColumn]; clock := clock w; sent := sent w |}).
Proof. apply merge_contact_data_no_id. Qed.

(** C10. For a non-empty existing table that has the 'Contact ID'
    column, an empty fetch (no records, as after a failed fetch) makes
    the merge return the existing table as it is. *)
Theorem merge_contact_data_empty_fetch new_contacts existing :
  empty existing = false →
  "Contact ID" ∈ columns existing →
  empty (pd_DataFrame new_contacts) = true →
  ∃ w', merge_contact_data new_contacts (Some existing) e w = (Returns existing, w')
    ∧ NoNewData ∈ stdout w'.
Proof.
  intros Hexisting Hid Hnew.
  destruct (merge_contact_data_no_new e w new_contacts existing Hexisting Hid Hnew)
    as (w' & Hrun & Hlast).
  exists w'. split; [done|]. by apply last_Some_elem_of.
Qed.
End MergeClaims.

(** ** The records [update_excel] builds *)

Lemma contact_data_from_spec contacts : ∀ i total e w,
∃ w', contact_data_from i total contacts e w
      = (Returns (imap (fun k c => contact_info c (strftime_now e (clock w + k)))
                    contacts), w')
  ∧ clock w' = clock w + length contacts
  ∧ sent w' = sent w.
Proof.
induction contacts as [|c rest IH]; intros i total e w.
- exists w. simpl. split_and!; [done|lia|done].
- cbn [contact_data_from]. unfold mbind at 1, M_bind at 1.
  assert (Hw0 : ∃ w0,
            print_if (S i mod 10 =? 0)%nat (ProcessingContact (S i) total) e w
            = (Returns tt, w0) ∧ clock w0 = clock w ∧ sent w0 = sent w).
  { unfold print_if. destruct (_ =? _)%nat; eexists; (split; [reflexivity|done]). }
  destruct Hw0 as (w0 & -> & Hc0 & Hs0).
  unfold mbind at 1, M_bind at 1. cbn [datetime_now].
  unfold mbind at 1, M_bind at 1.
  destruct (IH (S i) total e
              {| stdout := stdout w0; clock := S (clock w0); sent := sent w0 |})
    as (w' & -> & Hc & Hs).
  exists w'. cbn [clock sent] in Hc, Hs. split_and!.
  + cbn [imap]. rewrite Hc0, Nat.add_0_r. unfold mret, M_ret. do 3 f_equal.
    apply imap_ext. intros k x _. cbn. do 3 f_equal. lia.
  + rewrite Hc, Hc0. simpl. lia.
  + by rewrite Hs.
Qed.

Lemma contact_data_shape contacts e w new w' :
contact_data contacts e w = (Returns new, w') →
Forall is_contact_info new ∧ length new = length contacts.
Proof.
unfold contact_data.
destruct (contact_data_from_spec contacts 0 (length contacts) e w) as (w1 & -> & _).
intros [= <- _]. split; [|by rewrite length_imap].
apply Forall_forall. intros r (k & c & -> & _)%elem_of_lookup_imap. done.
Qed.

Lemma contact_data_stamps contacts e w new w' :
contact_data contacts e w = (Returns new, w') →
map (fun r => dict_get r "Last Updated" NaN) new
= map (fun k => Str (strftime_now e (clock w + k))) (seq 0 (length contacts)).
Proof.
unfold contact_data.
destruct (contact_data_from_spec contacts 0 (length contacts) e w) as (w1 & -> & _).
intros [= <- _]. apply list_eq. intros k.
rewrite !list_lookup_fmap, list_lookup_imap.
destruct (contacts !! k) as [c|] eqn:Hk; simpl.
- rewrite lookup_seq_lt by (by eapply lookup_lt_Some). done.
- rewrite lookup_seq_ge by (by apply lookup_ge_None). done.
Qed.

Section FetchedClaims.
Variables (e : env) (w : world).

(** C8. When the existing table is absent or empty, the merge returns
    the frame of the new records and does nothing else; for the
    records [update_excel] builds, every row carries in 'Last Updated'
    the clock reading taken when its record was built. *)
Theorem merge_contact_data_without_existing
    contacts new_contacts w1 existing :
  contact_data contacts e w = (Returns new_contacts, w1) →
  match existing with None => True | Some df => empty df = true end →
  merge_contact_data new_contacts existing e w1
  = (Returns (pd_DataFrame new_contacts), w1)
  ∧ index (pd_DataFrame new_contacts) = length contacts
  ∧ (contacts ≠ [] →
     getitem (pd_DataFrame new_contacts) "Last Updated"
     = Some (map (fun k => Str (strftime_now e (clock w + k)))
               (seq 0 (length contacts)))).
Proof.
  intros Hdata Hex.
  destruct (contact_data_shape _ _ _ _ _ Hdata) as [Hshape Hlen].
  split_and!.
  - destruct existing as [df|]; [by apply merge_contact_data_empty|done].
  - exact Hlen.
  - intros Hne. rewrite fetched_getitem.
    + by rewrite (contact_data_stamps _ _ _ _ _ Hdata).
    + done.
    + intros ->. by destruct contacts.
    + by_compute.
Qed.

(** C9. For a non-empty fetch and an existing table with the
    'Contact ID' column, the columns of every table the merge returns
    are the eight fetched fields in their fixed order, then 'Last
    Updated', then the custom columns in the order the existing table
    has them.  The merge returns a table when the existing
    identifiers are distinct. *)
Theorem merge_contact_data_column_order new_contacts existing ids :
  new_contacts ≠ [] →
  Forall is_contact_info new_contacts →
  wf_df existing →
  empty existing = false →
  getitem existing "Contact ID" = Some ids →
  (NoDup ids →
   ∃ out w', merge_contact_data new_contacts (Some existing) e w = (Returns out, w'))
  ∧ ∀ out w',
      merge_contact_data new_contacts (Some existing) e w = (Returns out, w') →
      columns out
      = ["Contact ID"; "Email"; "First Name"; "Last Name"; "Phone"; "Company";
         "Lifecycle Stage"; "Lead Status"]
        ++ ["Last Updated"]
        ++ filter (fun c => c ∉ columns (pd_DataFrame new_contacts)) (columns existing).
Proof.
  intros Hne Hshape [Hnd_cols _] Hexisting Hids.
  pose proof (fetched_not_empty new_contacts Hshape Hne) as Hnew.
  assert (Hnew_ids : getitem (pd_DataFrame new_contacts) "Contact ID"
                     = Some (map (fun r => dict_get r "Contact ID" NaN) new_contacts)).
  { apply fetched_getitem; [done..|by_compute]. }
  split.
  - intros Hnd.
    destruct (merge_contact_data_merges e w new_contacts existing _ ids
                Hexisting Hnew Hnew_ids Hids Hnd) as (out & w' & _ & Hrun & _).
    by exists out, w'.
  - intros out w' Hrun.
    destruct (merge_contact_data_frame e w new_contacts existing _ ids
                Hexisting Hnew Hnew_ids Hids out w' Hrun) as (_ & _ & _ & _ & Hcols).
    rewrite Hcols; [|done|].
    + by rewrite fetched_frame_columns.
    + rewrite fetched_frame_columns by done. by_compute.
Qed.
End FetchedClaims.

(** ** Merging a fetch against the table it produced *)

Lemma assoc_fetched_fields (r : dict) c :
c ≠ "Last Updated" → assoc c (fetched_fields r) = assoc c r.
Proof.
intros Hc. unfold fetched_fields. induction r as [|[k v] r IH]; [done|].
destruct (decide (k = "Last Updated")) as [->|Hk].
- rewrite filter_cons_False by (simpl; tauto). simpl.
  by rewrite decide_False.
- rewrite filter_cons_True by done. simpl. by rewrite IH.
Qed.

Lemma same_fetch_column new1 new2 c :
map fetched_fields new1 = map fetched_fields new2 →
c ≠ "Last Updated" →
map (fun r => dict_get r c NaN) new1 = map (fun r => dict_get r c NaN) new2.
Proof.
intros Hsame Hc.
assert (Hm : ∀ new, map (fun r => dict_get r c NaN) new
                    = map (fun d => dict_get d c NaN) (map fetched_fields new)).
{ intros new. rewrite map_map. apply map_ext. intros r.
  unfold dict_get. by rewrite assoc_fetched_fields. }
by rewrite (Hm new1), (Hm new2), Hsame.
Qed.

Lemma same_fetch_length new1 new2 :
map fetched_fields new1 = map fetched_fields new2 → length new1 = length new2.
Proof. intros H. by rewrite <- (length_map fetched_fields new1), H, length_map. Qed.

Section Remerge.
Variables (new1 new2 : list dict).
Hypothesis Hshape1 : Forall is_contact_info new1.
Hypothesis Hshape2 : Forall is_contact_info new2.
Hypothesis Hsame : map fetched_fields new1 = map fetched_fields new2.
Hypothesis Hne1 : new1 ≠ [].

Lemma remerge_nonempty : new2 ≠ [].
Proof.
  intros ->. apply same_fetch_length in Hsame. by destruct new1.
Qed.

Lemma remerge_ids :
  getitem (pd_DataFrame new2) "Contact ID" = Some (record_ids new1).
Proof.
  rewrite fetched_getitem; [|done|apply remerge_nonempty|by_compute].
  unfold record_ids. by rewrite (same_fetch_column new1 new2).
Qed.

Lemma remerge_fetched_column c :
  c ≠ "Last Updated" →
  getitem (pd_DataFrame new2) c = getitem (pd_DataFrame new1) c.
Proof.
  intros Hc. destruct (decide (c ∈ fetched_columns)) as [Hin|Hout].
  - rewrite !fetched_getitem; [|done|done|done|done|apply remerge_nonempty|done].
    by rewrite (same_fetch_column new1 new2).
  - transitivity (@None (list cell)); [|symmetry]; apply assoc_None.
    + change (c ∉ columns (pd_DataFrame new2)).
      rewrite fetched_frame_columns; [done|done|apply remerge_nonempty].
    + change (c ∉ columns (pd_DataFrame new1)). by rewrite fetched_frame_columns.
Qed.

(** The second merge, against a table [out1] that has the fetched
    columns of the first fetch and then custom columns. *)
Lemma remerge_frame e w2 out1 custom :
  NoDup (record_ids new1) →
  index out1 = length new1 →
  columns out1 = fetched_columns ++ custom →
  NoDup custom →
  (∀ c, c ∈ custom → c ∉ fetched_columns) →
  (∀ c, c ∈ custom → ∃ vals, getitem out1 c = Some vals ∧ length vals = length new1) →
  (∀ c, c ∉ custom → c ≠ "Last Updated" →
     getitem out1 c = getitem (pd_DataFrame new1) c) →
  ∃ out2 w2',
    merge_contact_data new2 (Some out1) e w2 = (Returns out2, w2')
    ∧ same_but_stamp out2 out1.
Proof.
  intros Hnd Hidx Hcols Hnd_custom Hfresh Hcustom Hother.
  pose proof remerge_nonempty as Hne2.
  pose proof (fetched_not_empty new2 Hshape2 Hne2) as Hnew2.
  assert (Hid1 : getitem out1 "Contact ID" = Some (record_ids new1)).
  { rewrite Hother; [by apply fetched_getitem; [..|by_compute]| |done].
    intros Hc%Hfresh. apply Hc. by_compute. }
  assert (Hex : empty out1 = false).
  { apply (column_not_empty out1 "Contact ID" (record_ids new1) Hid1).
    - unfold record_ids. by rewrite length_map.
    - unfold record_ids. by destruct new1. }
  destruct (merge_contact_data_merges e w2 new2 out1 (record_ids new1) (record_ids new1)
              Hex Hnew2 remerge_ids Hid1 Hnd) as (out2 & w2' & _ & Hrun & _).
  exists out2, w2'. split; [done|].
  destruct (merge_contact_data_frame e w2 new2 out1 (record_ids new1) (record_ids new1)
              Hex Hnew2 remerge_ids Hid1 out2 w2' Hrun)
    as (Hidx2 & _ & Hcust2 & Hother2 & Hcols2).
  assert (HC : custom_columns_of (columns (pd_DataFrame new2)) out1 = custom).
  { unfold custom_columns_of. rewrite fetched_frame_columns, Hcols, filter_app by done.
    replace (filter (fun col => col ∉ fetched_columns) fetched_columns)
      with (@nil string) by (by vm_compute).
    simpl. clear -Hfresh. induction custom as [|c cs IH]; [done|].
    rewrite filter_cons_True by apply Hfresh, list_elem_of_here.
    f_equal. apply IH. intros c' Hc'. by apply Hfresh, list_elem_of_further. }
  rewrite HC in Hcust2, Hother2, Hcols2.
  split_and!.
  - rewrite Hidx2, Hidx. symmetry. by apply same_fetch_length.
  - rewrite Hcols2, Hcols.
    + by rewrite fetched_frame_columns.
    + rewrite Hcols. apply NoDup_app. split_and!; [by_compute| |done].
      intros c Hc Hc'. by apply (Hfresh c).
    + rewrite fetched_frame_columns by done. by_compute.
  - intros c Hc. destruct (decide (c ∈ custom)) as [Hin|Hout].
    + destruct (Hcustom c Hin) as (vals & Hvals & Hlen).
      destruct (Hcust2 c vals Hin Hvals) as (out_c & Hout_c & Hlen_c & Hrows).
      rewrite Hout_c, Hvals. f_equal. apply list_eq. intros j.
      destruct ((record_ids new1) !! j) as [x|] eqn:Hj.
      * destruct (Hrows j x Hj) as [Hfound _]. rewrite (Hfound j Hj).
        assert (Hlt : j < length vals).
        { rewrite Hlen. apply lookup_lt_Some in Hj. unfold record_ids in Hj.
          by rewrite length_map in Hj. }
        apply lookup_lt_is_Some_2 in Hlt as [v Hv]. by rewrite Hv.
      * apply lookup_ge_None in Hj. unfold record_ids in Hj, Hlen_c.
        rewrite length_map in Hj, Hlen_c.
        rewrite (proj2 (lookup_ge_None out_c j)) by lia.
        rewrite (proj2 (lookup_ge_None vals j)) by lia. done.
    + rewrite Hother2, Hother by done.
      unfold setitem_scalar. rewrite getitem_setitem_ne by done.
      by apply remerge_fetched_column.
Qed.
End Remerge.

Section Idempotence.
Variables (e : env) (w1 w2 : world).

(** C5. Take a fetch whose identifiers are distinct and the table
    [out1] the merge made of it (against any existing table, or none).
    Merging the same fetch again, with the same identifiers and
    fetched fields, against [out1] returns a table with the rows and
    columns of [out1] that differs from it at most in 'Last Updated'. *)
Theorem merge_contact_data_idempotent new1 new2 existing out1 w1' :
  Forall is_contact_info new1 →
  Forall is_contact_info new2 →
  map fetched_fields new1 = map fetched_fields new2 →
  NoDup (record_ids new1) →
  match existing with None => True | Some df => wf_df df end →
  merge_contact_data new1 existing e w1 = (Returns out1, w1') →
  ∃ out2 w2',
    merge_contact_data new2 (Some out1) e w2 = (Returns out2, w2')
    ∧ same_but_stamp out2 out1.
Proof.
  intros Hshape1 Hshape2 Hsame Hnd Hwf Hrun.
  pose proof (same_fetch_length _ _ Hsame) as Hlen.
  destruct (decide (new1 = [])) as [-> | Hne1].
  - (* nothing fetched *)
    destruct new2; [|done]. clear Hshape1 Hshape2 Hsame Hnd Hlen.
    assert (Hout1 : (out1 = pd_DataFrame [])
                    ∨ (∃ df, existing = Some df ∧ out1 = df ∧ empty df = false
                             ∧ "Contact ID" ∈ columns df)).
    { destruct existing as [df|]; [|left; by injection Hrun as <- _].
      destruct (empty df) eqn:Hdf.
      { left. rewrite merge_contact_data_empty in Hrun by done.
        by injection Hrun as <- _. }
      destruct (decide ("Contact ID" ∈ columns df)) as [Hid|Hid].
      - right. exists df.
        destruct (merge_contact_data_no_new e w1 [] df Hdf Hid eq_refl)
          as (w' & Hrun' & _).
        rewrite Hrun in Hrun'. by injection Hrun' as -> _.
      - left. rewrite merge_contact_data_no_id in Hrun by done.
        by injection Hrun as <- _. }
    destruct Hout1 as [-> | (df & _ & <- & Hdf & Hid)].
    + exists (pd_DataFrame []), w2. split; [|done].
      by apply merge_contact_data_empty.
    + destruct (merge_contact_data_no_new e w2 [] out1 Hdf Hid eq_refl)
        as (w' & Hrun' & _).
      by exists out1, w'.
  - (* a non-empty fetch *)
    pose proof (fetched_not_empty new1 Hshape1 Hne1) as Hnew1.
    pose proof (fetched_frame_columns new1 Hshape1 Hne1) as Hcols1.
    assert (Hid1 : getitem (pd_DataFrame new1) "Contact ID"
                   = Some (map (fun r => dict_get r "Contact ID" NaN) new1)).
    { apply fetched_getitem; [done..|by_compute]. }
    assert (Hplain : out1 = pd_DataFrame new1 →
              ∃ out2 w2', merge_contact_data new2 (Some out1) e w2 = (Returns out2, w2')
                ∧ same_but_stamp out2 out1).
    { intros ->.
      apply (remerge_frame new1 new2 Hshape1 Hshape2 Hsame Hne1 e w2 _ []);
        try done.
      - constructor.
      - by intros c ?%elem_of_nil.
      - by intros c ?%elem_of_nil. }
    destruct existing as [df|]; [|apply Hplain; by injection Hrun as <- _].
    destruct (empty df) eqn:Hdf.
    { apply Hplain. rewrite merge_contact_data_empty in Hrun by done.
      by injection Hrun as <- _. }
    destruct (decide ("Contact ID" ∈ columns df)) as [Hid|Hid].
    2:{ apply Hplain. rewrite merge_contact_data_no_id in Hrun by done.
        by injection Hrun as <- _. }
    apply getitem_is_Some in Hid as [ids Hids].
    destruct (merge_contact_data_frame e w1 new1 df _ ids
                Hdf Hnew1 Hid1 Hids out1 w1' Hrun)
      as (Hidx & Hoid & Hcustom & Hother & Hcols).
    destruct Hwf as [Hnd_cols Hwf_len].
    rewrite Hcols1 in Hcustom, Hother, Hcols.
    apply (remerge_frame new1 new2 Hshape1 Hshape2 Hsame Hne1 e w2 out1
             (custom_columns_of fetched_columns df)); try done.
    + apply Hcols; [done|by_compute].
    + by apply NoDup_filter.
    + by intros c [Hc _]%custom_columns_of_elem.
    + intros c Hc. pose proof Hc as [_ [vals Hvals]%getitem_is_Some]%custom_columns_of_elem.
      destruct (Hcustom c vals Hc Hvals) as (out_c & Hout_c & Hlen_c & _).
      exists out_c. split; [done|]. by rewrite Hlen_c, length_map.
    + intros c Hc Hlu. rewrite Hother by done.
      unfold setitem_scalar. by rewrite getitem_setitem_ne.
Qed.
End Idempotence.

(** ** The claims on the sample data *)

Example merge_sample :
  merge_contact_data sample_records (Some sample_existing) sample_env
    {| stdout := []; clock := 2; sent := [] |}
  = (Returns sample_merged,
     {| stdout := [PreservingCustom ["Owner Notes"]; FoundNew 1];
        clock := 3; sent := [] |}).
Proof. by vm_compute. Qed.

Example merge_sample_duplicated :
  (merge_contact_data sample_records (Some sample_duplicated) sample_env world0).1
  = Raises.
Proof. by vm_compute. Qed.

Example fetch_three_pages :
  (get_contacts_from_list 3 sample_exporter "42" 100 sample_env world0).1
  = Returns sample_fetched.
Proof. by vm_compute. Qed.

Lemma get_contacts_from_list_concat_witness :
  ∃ out w', get_contacts_from_list 3 sample_exporter "42" 100 sample_env world0
            = (Returns out, w')
    ∧ Forall2 record_of
        [sample_v1 1 "a@x.io"; sample_v1 2 "b@x.io"; sample_v1 3 "c@x.io";
         sample_v1 4 "d@x.io"] out
    ∧ sent w' = sent world0 ++ cursor_requests "42" 100 0 ([page_a; page_b] ++ [page_c]).
Proof.
  apply (Fetch.get_contacts_from_list_concat sample_exporter "42" 100
           sample_env world0 [page_a; page_b] page_c 3).
  - by repeat constructor.
  - reflexivity.
  - repeat split; by eexists.
  - simpl. lia.
  - reflexivity.
  - by repeat constructor.
Defined.

Lemma get_contacts_from_list_denied_witness :
  ∃ w', get_contacts_from_list 2 sample_exporter "42" 100
          {| strftime_now := sample_clock; requests_get := expired_token |} world0
        = (Returns [], w')
    ∧ (401%Z = 401%Z → last (stdout w') = Some AuthFailed)
    ∧ (401%Z = 404%Z →
         ∃ pre, stdout w' = pre ++ [ListNotFound "42"; RunGetLists]).
Proof.
  apply (Fetch.get_contacts_from_list_denied sample_exporter "42" 100
           {| strftime_now := sample_clock; requests_get := expired_token |} world0
           [page_a] {| status_code := 401; text := "expired"; json := None |} 2).
  - by repeat constructor.
  - repeat split; by eexists.
  - reflexivity.
  - by left.
  - simpl. lia.
Defined.

Lemma get_contacts_from_list_partial_witness :
  ∃ out w', get_contacts_from_list 2 sample_exporter "42" 100
              {| strftime_now := sample_clock; requests_get := broken_line |} world0
            = (Returns out, w')
    ∧ Forall2 record_of [sample_v1 1 "a@x.io"; sample_v1 2 "b@x.io"] out
    ∧ ExceptionOccurred ∈ stdout w'.
Proof.
  apply (Fetch.get_contacts_from_list_partial sample_exporter "42" 100
           {| strftime_now := sample_clock; requests_get := broken_line |} world0
           [page_a] 2).
  - by repeat constructor.
  - repeat split; by eexists.
  - reflexivity.
  - simpl. lia.
  - reflexivity.
  - by repeat constructor.
Defined.

Lemma merge_contact_data_keeps_custom_values_witness :
  (NoDup [Str "1"; Str "3"] →
   ∃ out w', merge_contact_data sample_records (Some sample_existing) sample_env world0
             = (Returns out, w'))
  ∧ ∀ out w',
      merge_contact_data sample_records (Some sample_existing) sample_env world0
      = (Returns out, w') →
      ∃ out_c,
        getitem out "Contact ID" = Some [Str "1"; Str "2"]
        ∧ getitem out "Owner Notes" = Some out_c
        ∧ ∀ j k, [Str "1"; Str "2"] !! j = Some (Str "1") →
                 [Str "1"; Str "3"] !! k = Some (Str "1") →
            is_Some ([Str "VIP"; NaN] !! k) ∧ out_c !! j = [Str "VIP"; NaN] !! k.
Proof.
  apply (merge_contact_data_keeps_custom_values sample_env world0 sample_records
           sample_existing [Str "1"; Str "2"] [Str "1"; Str "3"] (Str "1")
           "Owner Notes" [Str "VIP"; NaN]); by_compute.
Defined.

(** C2 as stated fails: after an empty fetch the merge returns the
    existing table, so the identifier "3", which is not among the
    fetched ones, still has its row. *)
Lemma full_replace_fails_on_empty_fetch :
  ¬ (∀ e w new_contacts existing ids i,
       empty existing = false →
       getitem existing "Contact ID" = Some ids →
       i ∈ ids →
       i ∉ default [] (getitem (pd_DataFrame new_contacts) "Contact ID") →
       ∀ out w',
         merge_contact_data new_contacts (Some existing) e w = (Returns out, w') →
         ∃ out_ids, getitem out "Contact ID" = Some out_ids ∧ i ∉ out_ids).
Proof.
  intros Hclaim.
  destruct (Hclaim sample_env world0 [] sample_existing [Str "1"; Str "3"] (Str "3")
              eq_refl eq_refl ltac:(by_compute) ltac:(by_compute)
              sample_existing
              {| stdout := [PreservingCustom ["Contact ID"; "Email"; "Owner Notes"];
                            NoNewData];
                 clock := 0; sent := [] |}
              ltac:(by vm_compute))
    as (out_ids & [= <-] & Hnot).
  apply Hnot. by_compute.
Qed.

Lemma merge_contact_data_drops_missing_ids_witness :
  (NoDup [Str "1"; Str "3"] → "Contact ID" ∈ columns (pd_DataFrame sample_records) →
   ∃ out w', merge_contact_data sample_records (Some sample_existing) sample_env world0
             = (Returns out, w'))
  ∧ ∀ out w',
      merge_contact_data sample_records (Some sample_existing) sample_env world0
      = (Returns out, w') →
      ∃ out_ids, getitem out "Contact ID" = Some out_ids ∧ Str "3" ∉ out_ids.
Proof.
  apply (merge_contact_data_drops_missing_ids sample_env world0 sample_records
           sample_existing [Str "1"; Str "3"] (Str "3")); by_compute.
Defined.

Lemma merge_contact_data_without_id_column_witness :
  merge_contact_data sample_records (Some sample_without_id) sample_env world0
  = (Returns (pd_DataFrame sample_records),
     {| stdout := stdout world0 ++ [NoContactIdColumn];
        clock := clock world0; sent := sent world0 |}).
Proof.
  apply (merge_contact_data_without_id_column sample_env world0 sample_records
           sample_without_id); by_compute.
Defined.

Lemma merge_contact_data_empty_fetch_witness :
  ∃ w', merge_contact_data [] (Some sample_existing) sample_env world0
        = (Returns sample_existing, w')
    ∧ NoNewData ∈ stdout w'.
Proof.
  apply (merge_contact_data_empty_fetch sample_env world0 [] sample_existing);
    by_compute.
Defined.

Lemma merge_contact_data_without_existing_witness :
  merge_contact_data sample_records None sample_env
    {| stdout := []; clock := 2; sent := [] |}
  = (Returns (pd_DataFrame sample_records), {| stdout := []; clock := 2; sent := [] |})
  ∧ index (pd_DataFrame sample_records) = length [alice; bob]
  ∧ ([alice; bob] ≠ [] →
     getitem (pd_DataFrame sample_records) "Last Updated"
     = Some (map (fun k => Str (strftime_now sample_env (clock world0 + k)))
               (seq 0 (length [alice; bob])))).
Proof.
  apply (merge_contact_data_without_existing sample_env world0 [alice; bob]
           sample_records {| stdout := []; clock := 2; sent := [] |} None).
  - by vm_compute.
  - exact I.
Defined.

Lemma merge_contact_data_column_order_witness :
  (NoDup [Str "1"; Str "3"] →
   ∃ out w', merge_contact_data sample_records (Some sample_existing) sample_env world0
             = (Returns out, w'))
  ∧ ∀ out w',
      merge_contact_data sample_records (Some sample_existing) sample_env world0
      = (Returns out, w') →
      columns out
      = ["Contact ID"; "Email"; "First Name"; "Last Name"; "Phone"; "Company";
         "Lifecycle Stage"; "Lead Status"]
        ++ ["Last Updated"]
        ++ filter (fun c => c ∉ columns (pd_DataFrame sample_records))
             (columns sample_existing).
Proof.
  apply (merge_contact_data_column_order sample_env world0 sample_records
           sample_existing [Str "1"; Str "3"]); by_compute.
Defined.

Lemma merge_contact_data_idempotent_witness :
  ∃ out2 w2',
    merge_contact_data sample_records_again (Some sample_merged) sample_env
      {| stdout := []; clock := 7; sent := [] |} = (Returns out2, w2')
    ∧ same_but_stamp out2 sample_merged.
Proof.
  apply (merge_contact_data_idempotent sample_env
           {| stdout := []; clock := 2; sent := [] |}
           {| stdout := []; clock := 7; sent := [] |}
           sample_records sample_records_again (Some sample_existing) sample_merged
           {| stdout := [PreservingCustom ["Owner Notes"]; FoundNew 1];
              clock := 3; sent := [] |}).
  - by repeat constructor.
  - by repeat constructor.
  - by vm_compute.
  - by_compute.
  - by_compute.
  - by vm_compute.
Defined.

(** * Further properties *)

(** ** The fetch under any server *)

Section AnyServer.
Variables (self : HubSpotExporter) (list_id : string) (limit : Z).

(** A turn of the loop sends one request, reads no clock and does not
    raise, whatever the server does. *)
Lemma fetch_page_step contacts offset page_no e w :
  ∃ st w', fetch_page self list_id limit contacts offset page_no e w = (Returns st, w')
    ∧ sent w' = sent w ++ [page_request list_id limit offset]
    ∧ clock w' = clock w.
Proof.
  unfold fetch_page, page_request, mbind, M_bind, try_except, http_get, print_if, or_raise.
  destruct (debug self); simpl;
    (destruct (requests_get e _ _) as [r|]; simpl; [|by eauto]);
    repeat (case_decide; simpl; [by eauto|]);
    (destruct (json r) as [p|]; simpl; [|by eauto]);
    destruct (get_has_more p); simpl; by eauto.
Qed.

Lemma fetch_pages_run fuel : ∀ contacts offset page_no e w,
  ∃ r w' rs, fetch_pages fuel self list_id limit contacts offset page_no e w = (r, w')
    ∧ sent w' = sent w ++ rs
    ∧ length rs = match r with OutOfFuel => fuel | _ => length rs end
    ∧ (length rs ≤ fuel)%nat
    ∧ Forall (fun rq => rq_list_id rq = list_id ∧ rq_count rq = limit) rs
    ∧ head rs = match fuel with O => None | S _ => Some (page_request list_id limit offset) end
    ∧ clock w' = clock w
    ∧ match r with
      | Returns (Next _ _ _) | Raises => False
      | _ => True
      end.
Proof.
  induction fuel as [|fuel IH]; intros contacts offset page_no e w.
  - exists OutOfFuel, w, []. simpl. rewrite app_nil_r. split_and!; done.
  - cbn [fetch_pages]. unfold mbind at 1, M_bind at 1.
    destruct (fetch_page_step contacts offset page_no e w) as (st & w1 & -> & Hs1 & Hc1).
    destruct st as [c o n|c|v].
    + destruct (IH c o n e w1) as (r & w' & rs & -> & Hs & Hlen & Hle & Hall & _ & Hc & Hr).
      exists r, w', (page_request list_id limit offset :: rs).
      rewrite Hs, Hs1, <- app_assoc. simpl. split_and!; try done.
      * destruct r; simpl in *; congruence.
      * lia.
      * by constructor.
      * congruence.
    + exists (Returns (Break c)), w1, [page_request list_id limit offset].
      simpl. split_and!; try done; [lia|by repeat constructor].
    + exists (Returns (Return v)), w1, [page_request list_id limit offset].
      simpl. split_and!; try done; [lia|by repeat constructor].
Qed.

(** What a turn adds to the collected contacts comes from a page
    answered 200. *)
Lemma fetch_page_delivered contacts offset page_no e w st w' :
  Forall (delivered list_id limit e) contacts →
  fetch_page self list_id limit contacts offset page_no e w = (Returns st, w') →
  match st with
  | Next c _ _ | Break c => Forall (delivered list_id limit e) c
  | Return v => v = []
  end.
Proof.
  intros Hall.
  unfold fetch_page, mbind, M_bind, try_except, http_get, print_if, or_raise.
  destruct (debug self); simpl;
    (destruct (requests_get e _ _) as [r|] eqn:Hget; simpl; [|by intros [= <- _]]);
    repeat (case_decide; simpl; [by intros [= <- _]|]);
    (destruct (json r) as [p|] eqn:Hjson; simpl; [|by intros [= <- _]]).
  all: assert (Hpage : Forall (delivered list_id limit e) (get_contacts p))
    by (apply Forall_forall; intros entry Hin;
        exists (length (sent w)), offset, r, p; split_and!; try done;
        by destruct (decide (status_code r = 200%Z))).
  all: destruct (get_has_more p); simpl; intros [= <- _]; by apply Forall_app.
Qed.

Lemma fetch_pages_delivered fuel : ∀ contacts offset page_no e w st w',
  Forall (delivered list_id limit e) contacts →
  fetch_pages fuel self list_id limit contacts offset page_no e w = (Returns st, w') →
  match st with
  | Next c _ _ | Break c => Forall (delivered list_id limit e) c
  | Return v => v = []
  end.
Proof.
  induction fuel as [|fuel IH]; intros contacts offset page_no e w st w' Hall; [done|].
  cbn [fetch_pages]. unfold mbind at 1, M_bind at 1.
  destruct (fetch_page_step contacts offset page_no e w) as (st1 & w1 & Hstep & _).
  rewrite Hstep.
  pose proof (fetch_page_delivered contacts offset page_no e w st1 w1 Hall Hstep) as H1.
  destruct st1 as [c o n|c|v].
  - by apply IH.
  - by intros [= <- _].
  - by intros [= <- _].
Qed.

(** The call in terms of its loop and of the conversion after it. *)
Lemma get_contacts_from_list_unfold fuel e w :
  get_contacts_from_list fuel self list_id limit e w
  = match fetch_pages fuel self list_id limit [] 0%Z 1 e
            {| stdout := stdout w ++ [FetchingList list_id];
               clock := clock w; sent := sent w |} with
    | (Returns (Return v), w') => (Returns v, w')
    | (Returns (Break c), w') | (Returns (Next c _ _), w') =>
        (match mapM v3_contact c with Some v => Returns v | None => Raises end,
         {| stdout := stdout w' ++ [TotalRetrieved (length c)];
            clock := clock w'; sent := sent w' |})
    | (Raises, w') => (Raises, w')
    | (OutOfFuel, w') => (OutOfFuel, w')
    end.
Proof.
  unfold get_contacts_from_list. unfold mbind at 1, M_bind at 1. cbn [print].
  unfold mbind at 1, M_bind at 1.
  destruct (fetch_pages _ _ _ _ _ _ _ _ _) as [[[c o n|c|v]| |] w']; try reflexivity.
  all: unfold mbind, M_bind; cbn [print]; by destruct (mapM v3_contact c).
Qed.

(** X1. Nothing inside the loop makes the fetch raise, whatever the
    server answers: every failure there is caught.  The fetch raises
    only in the conversion after the loop, which is outside the try:
    then a page answered 200 to one of its requests held a contact
    that is no object or whose properties are no object. *)
Theorem get_contacts_from_list_raises fuel e w :
  (get_contacts_from_list fuel self list_id limit e w).1 = Raises →
  ∃ n offset r p entry,
    requests_get e n {| rq_list_id := list_id; rq_count := limit;
                        rq_vidOffset := offset |} = Some r
    ∧ status_code r = 200%Z
    ∧ json r = Some p
    ∧ entry ∈ default [] (pg_contacts p)
    ∧ match entry with
      | JContact c => rc_properties c = NotAnObject
      | JOther => True
      end.
Proof.
  rewrite get_contacts_from_list_unfold.
  destruct (fetch_pages_run fuel [] 0%Z 1 e
              {| stdout := stdout w ++ [FetchingList list_id];
                 clock := clock w; sent := sent w |})
    as (r & w' & rs & Hloop & _ & _ & _ & _ & _ & _ & Hr).
  rewrite Hloop.
  assert (Hfrom : ∀ st, r = Returns st →
            match st with
            | Next c _ _ | Break c => Forall (delivered list_id limit e) c
            | Return v => v = []
            end).
  { intros st ->.
    exact (fetch_pages_delivered fuel [] 0%Z 1 e _ st w' (Forall_nil_2 _) Hloop). }
  destruct r as [[c o n|c|v]| |]; try done.
  cbn [fst]. destruct (mapM v3_contact c) eqn:Hconv; [done|]. intros _.
  apply v3_contact_None, Exists_exists in Hconv as (entry & Hin & Hbad).
  specialize (Hfrom _ eq_refl). rewrite Forall_forall in Hfrom.
  destruct (Hfrom entry Hin) as (n & offset & r & p & Hget & Hst & Hjson & Hp).
  by exists n, offset, r, p, entry.
Qed.

(** X2. The fetch sends at most one request per turn, all for the list
    and page size it was called with, the first from cursor 0, and it
    never reads the clock. *)
Theorem get_contacts_from_list_requests fuel e w :
  ∃ rs,
    sent (get_contacts_from_list fuel self list_id limit e w).2 = sent w ++ rs
    ∧ (length rs ≤ fuel)%nat
    ∧ Forall (fun rq => rq_list_id rq = list_id ∧ rq_count rq = limit) rs
    ∧ head rs = match fuel with
                | O => None
                | S _ => Some {| rq_list_id := list_id; rq_count := limit;
                                 rq_vidOffset := 0 |}
                end
    ∧ clock (get_contacts_from_list fuel self list_id limit e w).2 = clock w.
Proof.
  rewrite get_contacts_from_list_unfold.
  destruct (fetch_pages_run fuel [] 0%Z 1 e
              {| stdout := stdout w ++ [FetchingList list_id];
                 clock := clock w; sent := sent w |})
    as (r & w' & rs & -> & Hs & _ & Hle & Hall & Hhd & Hc & Hr).
  exists rs. cbn [sent clock] in Hs, Hc.
  destruct r as [[c o n|c|v]| |]; try done; simpl; by rewrite Hs, Hc.
Qed.
End AnyServer.

(** ** The fetch when a page fails *)

Section FailingPage.
Variables (self : HubSpotExporter) (list_id : string) (limit : Z).
Variables (e : env) (w : world) (init : list page) (r : response) (fuel : nat).
Hypothesis Hmore : Forall (fun p => get_has_more p = true) init.
Hypothesis Hserves : serves list_id limit e (length (sent w)) 0 init.
Hypothesis Hanswer :
  requests_get e (length (sent w) + length init)
    (page_request list_id limit (cursor_after 0 init)) = Some r.
Hypothesis Hfuel : length init < fuel.

(** The call after the has-more pages [init], at the turn that meets [r]. *)
Lemma get_contacts_from_list_at_answer :
  ∃ w1,
    requests_get e (length (sent w1)) (page_request list_id limit (cursor_after 0 init))
      = Some r
    ∧ get_contacts_from_list fuel self list_id limit e w
      = match fetch_page self list_id limit (concat (map get_contacts init))
                (cursor_after 0 init) (1 + length init) e w1 with
        | (Returns (Return v), w') => (Returns v, w')
        | (Returns (Break c), w') =>
            (match mapM v3_contact c with Some v => Returns v | None => Raises end,
             {| stdout := stdout w' ++ [TotalRetrieved (length c)];
                clock := clock w'; sent := sent w' |})
        | (Returns (Next c o n), w') =>
            (st ← fetch_pages (fuel - S (length init)) self list_id limit c o n;
             match st with
             | Return v => mret v
             | Break contacts | Next contacts _ _ =>
                 print (TotalRetrieved (length contacts));;
                 or_raise (mapM v3_contact contacts)
             end) e w'
        | (Raises, w') => (Raises, w')
        | (OutOfFuel, w') => (OutOfFuel, w')
        end.
Proof.
  exists (after_pages self list_id limit
            {| stdout := stdout w ++ [FetchingList list_id];
               clock := clock w; sent := sent w |} 1 0 init).
  split; cycle 1.
  - replace fuel with (length init + S (fuel - S (length init))) at 1 by lia.
    rewrite Fetch.get_contacts_from_list_more by done.
    unfold mbind at 1, M_bind at 1. cbn [fetch_pages].
    unfold mbind at 1, M_bind at 1.
    destruct (fetch_page _ _ _ _ _ _ _ _) as [[[c o n|c|v]| |] w']; try reflexivity.
    unfold mbind, M_bind. cbn [print mret M_ret]. by destruct (mapM v3_contact c).
  - by rewrite Fetch.sent_after_pages.
Qed.

(** The fetch returns nothing when the answer is not 200. *)
Lemma get_contacts_from_list_not_200 :
  status_code r ≠ 200%Z →
  ∃ w', get_contacts_from_list fuel self list_id limit e w = (Returns [], w').
Proof.
  intros Hst. destruct get_contacts_from_list_at_answer as (w1 & Hget & ->).
  unfold fetch_page, page_request in *.
  unfold mbind, M_bind, try_except, http_get, print_if.
  destruct (debug self); simpl; rewrite Hget; simpl.
  all: repeat (case_decide; simpl); try (eexists; reflexivity).
  all: done.
Qed.

(** X3. Any answer other than 200, after any number of has-more pages,
    makes the fetch return the empty list, dropping what it collected;
    for a status other than 401 and 404 the status and the body text
    are the last thing printed. *)
Theorem get_contacts_from_list_http_error :
  status_code r ≠ 200%Z →
  ∃ w', get_contacts_from_list fuel self list_id limit e w = (Returns [], w')
    ∧ (status_code r ≠ 401%Z → status_code r ≠ 404%Z →
       last (stdout w') = Some (HttpError (status_code r) (text r))).
Proof.
  intros Hst. destruct get_contacts_from_list_at_answer as (w1 & Hget & ->).
  unfold fetch_page, page_request in *.
  unfold mbind, M_bind, try_except, http_get, print_if.
  destruct (debug self); simpl; rewrite Hget; simpl.
  all: repeat (case_decide; simpl);
    try (eexists; split; [reflexivity|]; intros; try done; simpl; by rewrite last_snoc).
  all: done.
Qed.

(** X4. A 200 answer whose body does not decode ends the loop like a
    transport failure: the fetch returns one record for each contact
    of the contact lists of the pages before it, in page order.  The
    contacts are objects whose properties, when given, are an object. *)
Theorem get_contacts_from_list_undecodable raws :
  status_code r = 200%Z →
  json r = None →
  concat (map (fun p => default [] (pg_contacts p)) init) = map JContact raws →
  Forall (fun raw => rc_properties raw ≠ NotAnObject) raws →
  ∃ out w', get_contacts_from_list fuel self list_id limit e w = (Returns out, w')
    ∧ Forall2 record_of raws out
    ∧ ExceptionOccurred ∈ stdout w'.
Proof.
  intros Hst Hjson Hraws Hshape.
  destruct (v3_contact_records raws Hshape) as (out & Hout & Hrec).
  change (concat (map get_contacts init) = map JContact raws) in Hraws.
  destruct get_contacts_from_list_at_answer as (w1 & Hget & ->).
  unfold fetch_page, page_request in *.
  unfold mbind, M_bind, try_except, http_get, print_if, or_raise.
  destruct (debug self); simpl; rewrite Hget; simpl; rewrite Hst, Hjson; simpl.
  all: rewrite Hraws, Hout; exists out; eexists; split_and!; [reflexivity|done|]; simpl.
  all: apply elem_of_app; left; apply elem_of_app; right; apply list_elem_of_here.
Qed.
End FailingPage.

(** X5. The loop has no bound of its own: against a server that answers
    every request with a page saying has-more, the fetch is still
    running after any number of turns, having sent a request in each. *)
Theorem get_contacts_from_list_endless self list_id limit e :
  (∀ n rq, ∃ txt p,
      requests_get e n rq = Some {| status_code := 200; text := txt; json := Some p |}
      ∧ get_has_more p = true) →
  ∀ fuel w,
    (get_contacts_from_list fuel self list_id limit e w).1 = OutOfFuel
    ∧ length (sent (get_contacts_from_list fuel self list_id limit e w).2)
      = length (sent w) + fuel.
Proof.
  intros Hsrv fuel w. rewrite get_contacts_from_list_unfold.
  assert (Hloop : ∀ fuel contacts offset page_no w0,
            ∃ w', fetch_pages fuel self list_id limit contacts offset page_no e w0
                  = (OutOfFuel, w')
              ∧ length (sent w') = length (sent w0) + fuel).
  { clear fuel w. induction fuel as [|fuel IH]; intros contacts offset page_no w0.
    - exists w0. split; [done|]. lia.
    - destruct (Hsrv (length (sent w0)) (page_request list_id limit offset))
        as (txt & p & Hget & Hp).
      cbn [fetch_pages]. unfold mbind at 1, M_bind at 1.
      rewrite (Fetch.fetch_page_200 _ _ _ _ _ _ _ _ _ _ Hget), Hp.
      destruct (IH (contacts ++ get_contacts p) (get_vid_offset p) (S page_no)
                  (after_pages self list_id limit w0 page_no offset [p]))
        as (w' & -> & Hlen).
      exists w'. split; [done|]. rewrite Hlen, Fetch.sent_after_pages. simpl. lia. }
  destruct (Hloop fuel [] 0%Z 1
              {| stdout := stdout w ++ [FetchingList list_id];
                 clock := clock w; sent := sent w |}) as (w' & -> & Hlen).
  done.
Qed.

(** ** From the fetched contacts to the records *)

Lemma str_inj z z' : str z = str z' → z = z'.
Proof.
  assert (Hparse : ∀ n, NilZero.int_of_string (str n) = Some (Z.to_int n)).
  { intros n. apply NilZero.isi; destruct n; simpl; try discriminate.
    all: intros [= H]; by apply (Unsigned.to_uint_nonnil p). }
  intros Hs. apply DecimalZ.to_int_inj.
  pose proof (Hparse z) as Hz. rewrite Hs, Hparse in Hz. by injection Hz.
Qed.

Lemma record_ids_contact_info contacts : ∀ stamp : nat → string,
  record_ids (imap (fun k c => contact_info c (stamp k)) contacts)
  = map (fun c => Str (id c)) contacts.
Proof.
  induction contacts as [|c rest IH]; intros stamp; [done|].
  cbn [imap map record_ids]. f_equal. apply (IH (stamp ∘ S)).
Qed.

(** Where [contact_data] prints its progress: at every tenth contact. *)
Lemma contact_data_from_run contacts : ∀ i total e w,
  contact_data_from i total contacts e w
  = (Returns (imap (fun k c => contact_info c (strftime_now e (clock w + k))) contacts),
     {| stdout := stdout w
                  ++ map (fun k => ProcessingContact k total)
                       (filter (fun k => k mod 10 = 0) (seq (S i) (length contacts)));
        clock := clock w + length contacts;
        sent := sent w |}).
Proof.
  induction contacts as [|c rest IH]; intros i total e w.
  - destruct w. simpl. by rewrite app_nil_r, Nat.add_0_r.
  - cbn [contact_data_from]. unfold mbind at 1, M_bind at 1, print_if.
    cbn [length seq]. destruct (Nat.eqb_spec (S i mod 10) 0) as [Hmod|Hmod].
    + rewrite filter_cons_True by done. cbn [print].
      unfold mbind at 1, M_bind at 1. cbn [datetime_now].
      unfold mbind at 1, M_bind at 1. rewrite IH. cbn [imap mret M_ret stdout clock sent].
      rewrite Nat.add_0_r. cbn [map]. rewrite <- app_assoc. cbn [app].
      unfold mret, M_ret.
      replace (clock w + S (length rest)) with (S (clock w) + length rest) by lia.
      do 3 f_equal. apply imap_ext. intros k x _. cbn. do 3 f_equal. lia.
    + rewrite filter_cons_False by done. cbn [mret M_ret].
      unfold mbind at 1, M_bind at 1. cbn [datetime_now].
      unfold mbind at 1, M_bind at 1. rewrite IH. cbn [imap mret M_ret stdout clock sent].
      rewrite Nat.add_0_r. unfold mret, M_ret.
      replace (clock w + S (length rest)) with (S (clock w) + length rest) by lia.
      do 3 f_equal. apply imap_ext. intros k x _. cbn. do 3 f_equal. lia.
Qed.

(** X6. [update_excel] builds one record per contact, in order, the
    k-th stamped with the k-th clock reading; it prints its progress at
    every tenth contact and at no other, and sends nothing. *)
Theorem contact_data_run contacts e w :
  contact_data contacts e w
  = (Returns (imap (fun k c => contact_info c (strftime_now e (clock w + k))) contacts),
     {| stdout := stdout w
                  ++ map (fun k => ProcessingContact k (length contacts))
                       (filter (fun k => k mod 10 = 0) (seq 1 (length contacts)));
        clock := clock w + length contacts;
        sent := sent w |}).
Proof. apply contact_data_from_run. Qed.

(** X7. Contacts fetched with pairwise distinct vids become records
    with pairwise distinct identifiers: [str] keeps vids apart. *)
Theorem fetched_ids_distinct raws vids contacts e w new_contacts w' :
  map vid raws = map Some vids →
  NoDup vids →
  mapM v3_contact (map JContact raws) = Some contacts →
  contact_data contacts e w = (Returns new_contacts, w') →
  NoDup (record_ids new_contacts)
  ∧ record_ids new_contacts = map (fun v => Str (str v)) vids.
Proof.
  intros Hvids Hnd Hconv. unfold contact_data. rewrite contact_data_from_run.
  intros [= <- _]. rewrite record_ids_contact_info.
  assert (Hids : map (fun c => Str (id c)) contacts
                 = map (fun v => Str (str v)) vids).
  { clear Hnd. revert vids contacts Hvids Hconv.
    induction raws as [|r raws IH]; intros [|v vids] contacts Hvids; try done.
    { by intros [= <-]. }
    injection Hvids as Hv Hrest. cbn [map mapM].
    destruct (v3_contact (JContact r)) as [c|] eqn:Hc; [|done]. cbn.
    destruct (mapM v3_contact (map JContact raws)) as [cs|] eqn:Hcs; [|done].
    intros [= <-]. cbn [map]. f_equal; [|by apply IH].
    unfold v3_contact in Hc. rewrite Hv in Hc.
    destruct (rc_properties r); [| |done]; by injection Hc as <-. }
  rewrite Hids. split; [|done].
  assert (Hinj : Inj (=) (=) (fun v => Str (str v))).
  { intros v1 v2 [= Hs]. by apply str_inj. }
  by apply (NoDup_fmap_2 (fun v => Str (str v))).
Qed.

(** ** More on the merge *)

Section MergeMore.
Variables (e : env) (w : world) (new_contacts : list dict) (existing : DataFrame).
Variables (new_ids ids : list cell).
Hypothesis Hexisting : empty existing = false.
Hypothesis Hnew : empty (pd_DataFrame new_contacts) = false.
Hypothesis Hnew_ids : getitem (pd_DataFrame new_contacts) "Contact ID" = Some new_ids.
Hypothesis Hids : getitem existing "Contact ID" = Some ids.

(** X8. A fetched identifier that the existing table does not have gets
    the empty string in every custom column. *)
Theorem merge_contact_data_new_ids_blank i c :
  i ∈ new_ids →
  i ∉ ids →
  c ∈ custom_columns_of (columns (pd_DataFrame new_contacts)) existing →
  (NoDup ids →
   ∃ out w', merge_contact_data new_contacts (Some existing) e w = (Returns out, w'))
  ∧ ∀ out w',
      merge_contact_data new_contacts (Some existing) e w = (Returns out, w') →
      ∃ out_c, getitem out c = Some out_c
        ∧ ∀ j, new_ids !! j = Some i → out_c !! j = Some (Str "").
Proof.
  intros Hi_new Hi Hc. split.
  - intros Hnd.
    destruct (merge_contact_data_merges e w new_contacts existing new_ids ids
                Hexisting Hnew Hnew_ids Hids Hnd) as (out & w' & _ & Hrun & _).
    by exists out, w'.
  - intros out w' Hrun.
    destruct (merge_contact_data_frame e w new_contacts existing new_ids ids
                Hexisting Hnew Hnew_ids Hids out w' Hrun) as (_ & _ & Hcustom & _).
    pose proof Hc as [_ [vals Hvals]%getitem_is_Some]%custom_columns_of_elem.
    destruct (Hcustom c vals Hc Hvals) as (out_c & Hout_c & _ & Hrows).
    exists out_c. split; [done|]. intros j Hj. by apply (Hrows j i Hj).
Qed.

(** X9. In a merged table every fetched column other than 'Last
    Updated' holds the new records' values, and 'Last Updated' holds,
    in every row, the one clock reading the merge takes; the table has
    one row per record. *)
Theorem merge_contact_data_fetched_values out w' :
  "Last Updated" ∈ columns (pd_DataFrame new_contacts) →
  merge_contact_data new_contacts (Some existing) e w = (Returns out, w') →
  index out = length new_contacts
  ∧ (∀ c, c ∈ columns (pd_DataFrame new_contacts) → c ≠ "Last Updated" →
       getitem out c = getitem (pd_DataFrame new_contacts) c)
  ∧ getitem out "Last Updated"
    = Some (replicate (length new_contacts) (Str (strftime_now e (clock w))))
  ∧ clock w' = S (clock w)
  ∧ sent w' = sent w.
Proof.
  intros Hlu Hrun.
  destruct (merge_contact_data_frame e w new_contacts existing new_ids ids
              Hexisting Hnew Hnew_ids Hids out w' Hrun) as (Hidx & _ & _ & Hother & _).
  pose proof (merge_contact_data_returns_NoDup e w new_contacts existing new_ids ids
                Hexisting Hnew Hnew_ids Hids out w' Hrun) as Hnd.
  destruct (merge_contact_data_merges e w new_contacts existing new_ids ids
              Hexisting Hnew Hnew_ids Hids Hnd) as (out0 & w0 & _ & Hrun0 & Hc & Hs & _).
  rewrite Hrun in Hrun0. injection Hrun0 as <- <-.
  split_and!; try done.
  - intros c Hc' Hne. rewrite Hother.
    + unfold setitem_scalar. by rewrite getitem_setitem_ne.
    + by intros [Hc'' _]%custom_columns_of_elem.
  - rewrite Hother.
    + unfold setitem_scalar. by rewrite getitem_setitem_eq.
    + by intros [Hc'' _]%custom_columns_of_elem.
Qed.

(** X10. With rows on both sides, the merge raises exactly when an
    identifier occurs twice in the existing table. *)
Theorem merge_contact_data_raises_iff :
  (∃ w', merge_contact_data new_contacts (Some existing) e w = (Raises, w'))
  ↔ ¬ NoDup ids.
Proof.
  split.
  - intros [w' Hrun] Hnd.
    destruct (merge_contact_data_merges e w new_contacts existing new_ids ids
                Hexisting Hnew Hnew_ids Hids Hnd) as (out & w0 & _ & Hrun0 & _).
    congruence.
  - by apply (merge_contact_data_ValueError e w new_contacts existing new_ids ids).
Qed.
End MergeMore.

(** Without the key in the records, the lookup of the new frame's
    identifiers fails. *)
Lemma merge_contact_data_KeyError e w new_contacts existing :
  empty existing = false →
  "Contact ID" ∈ columns existing →
  empty (pd_DataFrame new_contacts) = false →
  "Contact ID" ∉ columns (pd_DataFrame new_contacts) →
  ∃ w', merge_contact_data new_contacts (Some existing) e w = (Raises, w').
Proof.
  intros Hexisting Hid Hnew Hno. unfold merge_contact_data.
  rewrite Hexisting, Hnew. rewrite decide_False by (by intros ?).
  set (C := custom_columns_of _ existing).
  assert (HC : "Contact ID" ∈ C) by (by apply custom_columns_of_elem).
  unfold mbind, M_bind, print_if, datetime_now, or_raise.
  destruct C as [|c0 C']; [by apply elem_of_nil in HC|].
  rewrite bool_decide_true by done. cbn [print].
  destruct (custom_data_of existing (c0 :: C')) as [cd|]; [|by eexists].
  cbn -[add_custom_columns setitem_scalar pd_DataFrame].
  rewrite add_custom_columns_KeyError; [by eexists|].
  unfold setitem_scalar. rewrite getitem_setitem_ne by done. by apply assoc_None.
Qed.

(** X11. Records that lack the 'Contact ID' key cannot be merged into a
    table that has the column: the merge raises. *)
Theorem merge_contact_data_records_without_id e w new_contacts existing :
  empty existing = false →
  "Contact ID" ∈ columns existing →
  empty (pd_DataFrame new_contacts) = false →
  "Contact ID" ∉ columns (pd_DataFrame new_contacts) →
  (merge_contact_data new_contacts (Some existing) e w).1 = Raises.
Proof.
  intros Hexisting Hid Hnew Hno.
  destruct (merge_contact_data_KeyError e w new_contacts existing Hexisting Hid Hnew Hno)
    as [w' ->].
  done.
Qed.

(** ** Well-formed frames *)

Lemma unique_NoDup l : ∀ seen,
  NoDup (unique seen l) ∧ ∀ x, x ∈ unique seen l → x ∉ seen.
Proof.
  induction l as [|x l IH]; intros seen; simpl.
  - split; [constructor|]. by intros x ?%elem_of_nil.
  - case_decide as Hx; [apply IH|].
    destruct (IH (x :: seen)) as [Hnd Hfresh]. split.
    + constructor; [|done]. intros Hin%Hfresh. apply Hin, list_elem_of_here.
    + intros y [-> | Hy%Hfresh]%elem_of_cons; [done|].
      intros Hys. apply Hy. by apply list_elem_of_further.
Qed.

Lemma pd_DataFrame_wf records : wf_df (pd_DataFrame records).
Proof.
  split.
  - unfold columns, pd_DataFrame. cbn [data]. rewrite map_map. cbn [fst].
    rewrite map_id. apply unique_NoDup.
  - apply Forall_forall. intros [c vals] Hin. cbn [pd_DataFrame data index] in *.
    apply list_elem_of_fmap in Hin as (c' & [= _ ->] & _). cbn. apply length_map.
Qed.

Lemma setitem_wf df c vals :
  wf_df df → length vals = index df → wf_df (setitem df c vals).
Proof.
  intros [Hnd Hlen] Hvals. split.
  - unfold columns, setitem. cbn [data].
    destruct (decide (c ∈ map fst (data df))) as [Hin|Hout].
    + by rewrite keys_set_assoc_in.
    + rewrite keys_set_assoc_notin by done. apply NoDup_app. split_and!; [done| |].
      * intros x Hx ->%list_elem_of_singleton. done.
      * apply NoDup_singleton.
  - unfold setitem. cbn [data index]. clear Hnd.
    induction (data df) as [|[k v] l IH]; simpl.
    + by repeat constructor.
    + apply Forall_cons in Hlen as [Hkv Hl].
      case_decide; constructor; try done. by apply IH.
Qed.

Lemma add_custom_columns_wf custom_data custom_columns : ∀ new_df out,
  wf_df new_df →
  add_custom_columns custom_data custom_columns new_df = Some out →
  wf_df out.
Proof.
  induction custom_columns as [|col rest IH]; intros new_df out Hwf; simpl.
  - by intros [= <-].
  - destruct (getitem new_df "Contact ID") as [ids|] eqn:Hids; [|done]. simpl.
    apply IH. apply setitem_wf; [done|].
    rewrite length_map. by apply (wf_column_length new_df "Contact ID").
Qed.

(** X12. Whatever branch it takes, the merge returns a well-formed
    frame (distinct labels, one cell per row in every column) when the
    existing table is one. *)
Theorem merge_contact_data_wf e w new_contacts existing out w' :
  match existing with None => True | Some df => wf_df df end →
  merge_contact_data new_contacts existing e w = (Returns out, w') →
  wf_df out.
Proof.
  intros Hwf Hrun.
  destruct existing as [df|]; [|injection Hrun as <- _; apply pd_DataFrame_wf].
  destruct (empty df) eqn:Hdf.
  { rewrite merge_contact_data_empty in Hrun by done.
    injection Hrun as <- _. apply pd_DataFrame_wf. }
  destruct (decide ("Contact ID" ∈ columns df)) as [Hid|Hid].
  2:{ rewrite merge_contact_data_no_id in Hrun by done.
      injection Hrun as <- _. apply pd_DataFrame_wf. }
  destruct (empty (pd_DataFrame new_contacts)) eqn:Hnew.
  { destruct (merge_contact_data_no_new e w new_contacts df Hdf Hid Hnew)
      as (w1 & Hrun1 & _).
    rewrite Hrun in Hrun1. by injection Hrun1 as -> _. }
  destruct (decide ("Contact ID" ∈ columns (pd_DataFrame new_contacts))) as [Hnid|Hnid].
  2:{ destruct (merge_contact_data_KeyError e w new_contacts df
                  Hdf Hid Hnew Hnid) as [w1 Hraise]. congruence. }
  apply getitem_is_Some in Hid as [ids Hids].
  apply getitem_is_Some in Hnid as [new_ids Hnew_ids].
  pose proof (merge_contact_data_returns_NoDup e w new_contacts df new_ids ids
                Hdf Hnew Hnew_ids Hids out w' Hrun) as Hnd.
  destruct (merge_contact_data_merges e w new_contacts df new_ids ids
              Hdf Hnew Hnew_ids Hids Hnd) as (out0 & w0 & cd & Hrun0 & _ & _ & _ & Hadd & _).
  rewrite Hrun in Hrun0. injection Hrun0 as <- <-.
  apply (add_custom_columns_wf _ _ _ _ (setitem_wf _ _ _ (pd_DataFrame_wf _)
           (length_replicate _ _)) Hadd).
Qed.

(** ** The frames [update_excel] writes *)

(** X13. Without a merge the contacts frame has the nine fetched
    columns in their order, whether or not anything was fetched, and
    one row per record. *)
Theorem new_contact_df_columns contact_data :
  Forall is_contact_info contact_data →
  columns (new_contact_df contact_data) = fetched_columns
  ∧ index (new_contact_df contact_data) = length contact_data
  ∧ wf_df (new_contact_df contact_data).
Proof.
  intros Hshape. destruct contact_data as [|r rest].
  - split_and!; [done|done|]. by_compute.
  - split_and!; [by apply fetched_frame_columns|done|apply pd_DataFrame_wf].
Qed.

Lemma getitem_setitem_scalar_eq df c v :
  getitem (setitem_scalar df c v) c = Some (replicate (index df) v).
Proof. apply getitem_setitem_eq. Qed.

Lemma getitem_setitem_scalar_ne df c c' v :
  c ≠ c' → getitem (setitem_scalar df c v) c' = getitem df c'.
Proof. apply getitem_setitem_ne. Qed.

Lemma columns_setitem_scalar_new df c v :
  c ∉ columns df → columns (setitem_scalar df c v) = columns df ++ [c].
Proof. apply keys_set_assoc_notin. Qed.

(** X14. The summary sheet of a non-empty contacts frame keeps its rows
    and every column that is not one of the four summary columns, and
    sets 'Total Emails' and 'Total Meetings' to 0 and the two dates to
    the empty string in every row; if the contacts frame has none of
    the four, they come last, in that order. *)
Theorem summary_df_spec contact_df :
  empty contact_df = false →
  index (summary_df contact_df) = index contact_df
  ∧ (∀ c, c ∉ summary_columns → getitem (summary_df contact_df) c = getitem contact_df c)
  ∧ getitem (summary_df contact_df) "Total Emails"
    = Some (replicate (index contact_df) (Num 0))
  ∧ getitem (summary_df contact_df) "Total Meetings"
    = Some (replicate (index contact_df) (Num 0))
  ∧ getitem (summary_df contact_df) "Last Email Date"
    = Some (replicate (index contact_df) (Str ""))
  ∧ getitem (summary_df contact_df) "Last Meeting Date"
    = Some (replicate (index contact_df) (Str ""))
  ∧ ((∀ c, c ∈ summary_columns → c ∉ columns contact_df) →
     columns (summary_df contact_df) = columns contact_df ++ summary_columns).
Proof.
  intros Hne. unfold summary_df. rewrite Hne. cbn [negb]. rewrite Hne. cbn [negb].
  cbv zeta. split_and!; try done.
  - intros c Hc. rewrite !getitem_setitem_scalar_ne; [done|..];
      intros <-; apply Hc; by_compute.
  - do 3 (rewrite getitem_setitem_scalar_ne by done).
    by rewrite getitem_setitem_scalar_eq.
  - do 2 (rewrite getitem_setitem_scalar_ne by done).
    by rewrite getitem_setitem_scalar_eq.
  - rewrite getitem_setitem_scalar_ne by done.
    by rewrite getitem_setitem_scalar_eq.
  - by rewrite getitem_setitem_scalar_eq.
  - intros Hfresh.
    assert (H1 : "Total Emails" ∉ columns contact_df) by (apply Hfresh; by_compute).
    assert (H2 : "Total Meetings" ∉ columns contact_df) by (apply Hfresh; by_compute).
    assert (H3 : "Last Email Date" ∉ columns contact_df) by (apply Hfresh; by_compute).
    assert (H4 : "Last Meeting Date" ∉ columns contact_df) by (apply Hfresh; by_compute).
    set (d1 := setitem_scalar contact_df "Total Emails" (Num 0)).
    assert (Hc1 : columns d1 = columns contact_df ++ ["Total Emails"])
      by (by apply columns_setitem_scalar_new).
    set (d2 := setitem_scalar d1 "Total Meetings" (Num 0)).
    assert (Hc2 : columns d2 = columns d1 ++ ["Total Meetings"]).
    { apply columns_setitem_scalar_new. rewrite Hc1, elem_of_app, list_elem_of_singleton.
      by intros [?|?]. }
    set (d3 := setitem_scalar d2 "Last Email Date" (Str "")).
    assert (Hc3 : columns d3 = columns d2 ++ ["Last Email Date"]).
    { apply columns_setitem_scalar_new.
      rewrite Hc2, Hc1, !elem_of_app, !list_elem_of_singleton. by intros [[?|?]|?]. }
    rewrite columns_setitem_scalar_new.
    + rewrite Hc3, Hc2, Hc1. by rewrite <- !app_assoc.
    + rewrite Hc3, Hc2, Hc1, !elem_of_app, !list_elem_of_singleton.
      by intros [[[?|?]|?]|?].
Qed.

(** ** The connection test *)

Lemma say_all_run ns mc s :
  say_all ns mc s
  = (Returns tt,
     {| console := console s ++ map inr ns; readings := readings s; paged := paged s;
        probed := probed s; listed := listed s; saved := saved s;
        opened := opened s |}).
Proof.
  revert s. induction ns as [|n ns IH]; intros s.
  - destruct s. unfold say_all. simpl. by rewrite app_nil_r.
  - change (say_all (n :: ns)) with (say n;; say_all ns).
    unfold mbind, U_bind. cbn [say]. rewrite IH. cbn.
    by rewrite <- app_assoc.
Qed.

(** X15. The connection test never raises and asks the server once; it
    answers true exactly when the server answered 200 with a body that
    decodes.  It sends no page request, reads no clock and writes no
    file. *)
Theorem test_connection_result self mc s :
  ∃ s', test_connection self mc s = (Returns (probe_ok (probe mc (probed s))), s')
    ∧ probed s' = S (probed s)
    ∧ paged s' = paged s ∧ readings s' = readings s
    ∧ listed s' = listed s ∧ saved s' = saved s ∧ opened s' = opened s.
Proof.
  unfold test_connection, probe_ok.
  unfold mbind, U_bind, u_try, probe_get, u_or_raise. cbn.
  destruct (probe mc (probed s)) as [r|]; cbn.
  2:{ eexists. split; [reflexivity|done]. }
  case_decide as H200; cbn.
  - rewrite (bool_decide_true _ H200).
    destruct (pr_json r) as [total|]; cbn; eexists; (split; [reflexivity|done]).
  - rewrite (bool_decide_false _ H200).
    case_decide; [rewrite say_all_run|]; cbn; eexists; (split; [reflexivity|done]).
Qed.

(** X16. After the testing line the connection test prints the token:
    exactly its first 20 characters, marked as cut, when it has more
    than 20; the whole token, unmarked, when it has at most 20. *)
Theorem test_connection_key_shown self mc s :
  ∃ shown cut rest,
    console (test_connection self mc s).2
    = console s ++ inr TestingConnection :: inr (ApiKey shown cut) :: rest
    ∧ shown = take 20 (api_key self)
    ∧ (cut = true ↔ (20 < length (api_key self))%nat)
    ∧ (cut = true → length shown = 20)
    ∧ (cut = false → shown = api_key self).
Proof.
  unfold test_connection.
  set (key_note := if bool_decide _ then _ else _).
  assert (Hkey : ∃ shown cut, key_note = ApiKey shown cut
            ∧ shown = take 20 (api_key self)
            ∧ (cut = true ↔ (20 < length (api_key self))%nat)
            ∧ (cut = true → length shown = 20)
            ∧ (cut = false → shown = api_key self)).
  { unfold key_note. case_bool_decide as Hlen.
    - eexists _, true. split_and!; [done|done|done| |done].
      intros _. rewrite length_take. lia.
    - eexists _, false. split_and!; [done| | |done|done].
      + symmetry. apply take_ge. lia.
      + split; [done|]. intros ?. lia. }
  destruct Hkey as (shown & cut & -> & Hshown & Hcut & Hlen & Hwhole).
  exists shown, cut.
  unfold mbind, U_bind, u_try, probe_get, u_or_raise. cbn.
  destruct (probe mc (probed s)) as [r|]; cbn.
  2:{ eexists. split; [by rewrite <- !app_assoc|done]. }
  case_decide as H200; cbn.
  - destruct (pr_json r) as [total|]; cbn; eexists;
      (split; [by rewrite <- !app_assoc|done]).
  - case_decide; [rewrite say_all_run|]; cbn; eexists;
      (split; [by rewrite <- !app_assoc|done]).
Qed.

(** ** The lists *)

(** A turn of the loop over the endpoints asks the endpoint once and
    hands back its lists when it offers any. *)
Lemma try_endpoint_result ep mc s :
  ∃ s', try_endpoint ep mc s
        = (Returns (match lists_of mc ep with [] => None | l => Some l end), s')
    ∧ listed s' = listed s ++ [ep]
    ∧ paged s' = paged s ∧ readings s' = readings s
    ∧ probed s' = probed s ∧ saved s' = saved s ∧ opened s' = opened s.
Proof.
  unfold try_endpoint, lists_of.
  unfold mbind, U_bind, u_try, lists_get, u_or_raise. cbn.
  destruct (lists_at mc ep) as [r|]; cbn.
  2:{ eexists. split; [reflexivity|done]. }
  case_decide as H200; cbn.
  - destruct (lr_json r) as [body|]; cbn.
    2:{ eexists. split; [reflexivity|done]. }
    destruct (if is_v1 ep then _ else _) as [|lst lists]; cbn.
    + eexists. split; [reflexivity|done].
    + rewrite say_all_run. cbn. eexists. split; [reflexivity|done].
  - case_decide; cbn; eexists; (split; [reflexivity|done]).
Qed.

(** X17. [get_lists] never raises.  It returns the lists the v1
    endpoint offers (a 200 answer whose body decodes and holds a
    non-empty list) and does not ask v3 then; otherwise it asks v3 and
    returns what that offers, the empty list if nothing. *)
Theorem get_lists_result mc s :
  ∃ s', get_lists mc s
        = (Returns (match lists_of mc V1 with [] => lists_of mc V3 | l => l end), s')
    ∧ listed s' = listed s ++ (match lists_of mc V1 with [] => [V1; V3] | _ => [V1] end)
    ∧ paged s' = paged s ∧ readings s' = readings s
    ∧ probed s' = probed s ∧ saved s' = saved s.
Proof.
  unfold get_lists. unfold mbind at 1, U_bind at 1. cbn [say get_lists_from].
  unfold mbind at 1, U_bind at 1.
  destruct (try_endpoint_result V1 mc
              {| console := console s ++ [inr FetchingLists]; readings := readings s;
                 paged := paged s; probed := probed s; listed := listed s;
                 saved := saved s; opened := opened s |})
    as (s1 & -> & Hl1 & Hp1 & Hr1 & Hb1 & Hs1 & _).
  cbn [listed paged readings probed saved] in *.
  destruct (lists_of mc V1) as [|lst lists].
  - unfold mbind at 1, U_bind at 1.
    destruct (try_endpoint_result V3 mc s1) as (s2 & -> & Hl2 & Hp2 & Hr2 & Hb2 & Hs2 & _).
    destruct (lists_of mc V3) as [|lst lists]; cbn.
    + eexists. split; [reflexivity|]. cbn.
      rewrite Hl2, Hl1, <- app_assoc. split_and!; try done; congruence.
    + eexists. split; [reflexivity|].
      rewrite Hl2, Hl1, <- app_assoc. split_and!; try done; congruence.
  - eexists. split; [reflexivity|]. split_and!; try done; congruence.
Qed.

(** ** The existing file *)


Lemma load_sheets_run sheets : ∀ existing_data mc s,
  ∃ s', load_sheets sheets existing_data mc s
        = (match mapM (fun p => df ← p.2; Some (p.1, df)) sheets with
           | Some l => Returns (foldl (fun m p => <[p.1 := p.2]> m) existing_data l)
           | None => Raises
           end, s')
    ∧ only_printed s s'.
Proof.
  induction sheets as [|[name [df|]] rest IH]; intros existing_data mc s.
  - exists s. split; [reflexivity|done].
  - cbn [load_sheets u_or_raise]. unfold mbind at 1 2, U_bind at 1 2. cbn [mret U_ret say].
    destruct (IH (<[name := df]> existing_data) mc
                {| console := console s ++ [inr (LoadedSheet name (index df))];
                   readings := readings s; paged := paged s; probed := probed s;
                   listed := listed s; saved := saved s; opened := opened s |})
      as (s' & -> & Hframe).
    exists s'. split; [|done].
    cbn [mapM mbind option_bind snd fst].
    destruct (mapM _ rest) as [l|]; reflexivity.
  - exists s. split; [|done]. reflexivity.
Qed.

Lemma load_existing_data_run filepath mc s :
  ∃ s', load_existing_data filepath mc s = (Returns (loaded (file_at mc filepath)), s')
    ∧ only_printed s s'.
Proof.
  unfold load_existing_data, loaded, readable.
  destruct (file_at mc filepath) as [| |sheets].
  - exists s. split; [reflexivity|done].
  - eexists. split; [reflexivity|done].
  - unfold mbind at 1, U_bind at 1. cbn [say]. unfold u_try.
    unfold mbind at 1, U_bind at 1. cbn [mret U_ret].
    destruct (load_sheets_run sheets ∅ mc
                {| console := console s ++ [inr (LoadingFile filepath)];
                   readings := readings s; paged := paged s; probed := probed s;
                   listed := listed s; saved := saved s; opened := opened s |})
      as (s' & -> & Hframe).
    destruct (mapM _ sheets) as [l|].
    + exists s'. split; [reflexivity|done].
    + eexists. split; [reflexivity|]. cbn. exact Hframe.
Qed.

Lemma foldl_insert_lookup (l : list (string * DataFrame)) :
  ∀ (acc : gmap string DataFrame) name df,
  NoDup l.*1 →
  foldl (fun m p => <[p.1 := p.2]> m) acc l !! name = Some df
  ↔ ((name, df) ∈ l) ∨ ((name ∉ l.*1) ∧ acc !! name = Some df).
Proof.
  induction l as [|[n d] l IH]; intros acc name df Hnd.
  - simpl. split.
    + intros Hacc. right. split; [apply not_elem_of_nil|done].
    + intros [?%elem_of_nil|[_ ?]]; done.
  - apply NoDup_cons in Hnd as [Hn Hnd]. cbn [foldl fst snd].
    rewrite IH by done. rewrite elem_of_cons. cbn [fmap list_fmap fst].
    rewrite not_elem_of_cons.
    destruct (decide (n = name)) as [->|Hne].
    + rewrite lookup_insert_eq. split.
      * intros [Hin | [Hout [= ->]]]; [|by left; left].
        exfalso. apply Hn. apply list_elem_of_fmap. by exists (name, df).
      * intros [[[= ->] | Hin] | [[? _] _]]; [right; by split| |done].
        exfalso. apply Hn. apply list_elem_of_fmap. by exists (name, df).
    + rewrite lookup_insert_ne by done. split.
      * intros [Hin | [Hout Hacc]]; [left; by right|right; by split].
      * intros [[[= -> ->] | Hin] | [[_ Hout] Hacc]]; [done|by left|by right].
Qed.

(** X18. Loading never raises and only prints.  It is all or nothing:
    when the file is absent, is not a workbook, or has a sheet that
    does not parse, nothing is loaded (not even the sheets read before
    the bad one); when every sheet parses, the result holds exactly
    the file's sheets under their names. *)
Theorem load_existing_data_all_or_nothing filepath mc s :
  ∃ existing_data s',
    load_existing_data filepath mc s = (Returns existing_data, s')
    ∧ only_printed s s'
    ∧ match file_at mc filepath with
      | Sheets sheets =>
          (Exists (fun p => p.2 = None) sheets → existing_data = ∅)
          ∧ (Forall (fun p => is_Some p.2) sheets → NoDup sheets.*1 →
             ∀ name df, existing_data !! name = Some df ↔ (name, Some df) ∈ sheets)
      | _ => existing_data = ∅
      end.
Proof.
  destruct (load_existing_data_run filepath mc s) as (s' & Hrun & Hframe).
  exists (loaded (file_at mc filepath)), s'. split_and!; [done..|].
  unfold loaded, readable. destruct (file_at mc filepath) as [| |sheets]; [done..|].
  split.
  - intros Hbad. rewrite (proj2 (mapM_None _ sheets)); [done|].
    eapply Exists_impl; [exact Hbad|]. intros [n r] Hr. simpl in *. by rewrite Hr.
  - intros Hgood Hnd name df.
    destruct (mapM _ sheets) as [l|] eqn:Hl.
    + apply mapM_Some in Hl.
      assert (Hsheets : sheets = map (fun q => (q.1, Some q.2)) l).
      { clear -Hl. induction Hl as [|[n r] [n' d] sheets l Hx _ IH]; [done|].
        cbn [map]. rewrite <- IH. f_equal. simpl in *.
        destruct r as [d0|]; simpl in Hx; [|done]. by injection Hx as -> ->. }
      assert (Hnames : l.*1 = sheets.*1).
      { rewrite Hsheets. clear. induction l as [|q l IH]; [done|].
        cbn. by rewrite IH. }
      rewrite foldl_insert_lookup by (by rewrite Hnames).
      rewrite lookup_empty. rewrite Hsheets. split.
      * intros [Hin | [_ ?]]; [|done].
        apply list_elem_of_fmap. by exists (name, df).
      * intros ([n d] & [= -> ->] & Hin)%list_elem_of_fmap. by left.
    + apply mapM_None in Hl. exfalso.
      apply Exists_exists in Hl as ([n r] & Hin & Hr).
      rewrite Forall_forall in Hgood. destruct (Hgood _ Hin) as [d Hd].
      simpl in *. by rewrite Hd in Hr.
Qed.

(** ** The export, step by step *)

Lemma lift_M_run {A} (m : M A) mc s r w :
  m (net mc) (world_at (readings s) (paged s)) = (r, w) →
  lift_M m mc s
  = (r, {| console := console s ++ map inl (stdout w); readings := clock w;
           paged := sent w; probed := probed s; listed := listed s;
           saved := saved s; opened := opened s |}).
Proof. intros H. unfold lift_M. unfold world_at in H. by rewrite H. Qed.

Lemma test_connection_run self mc s :
  ∃ s', test_connection self mc s = (Returns (probe_ok (probe mc (probed s))), s')
    ∧ paged s' = paged s ∧ readings s' = readings s ∧ saved s' = saved s
    ∧ probed s' = S (probed s).
Proof.
  unfold test_connection, probe_ok.
  unfold mbind, U_bind, u_try, probe_get, u_or_raise. cbn.
  destruct (probe mc (probed s)) as [r|]; cbn.
  2:{ eexists. split; [reflexivity|done]. }
  case_decide as H200; cbn.
  - rewrite (bool_decide_true _ H200).
    destruct (pr_json r) as [total|]; cbn; eexists; (split; [reflexivity|done]).
  - rewrite (bool_decide_false _ H200).
    case_decide; [rewrite say_all_run|]; cbn; eexists; (split; [reflexivity|done]).
Qed.

Lemma U_bind_run {A B} (m : U A) (k : A → U B) mc s a s1 :
  m mc s = (Returns a, s1) → (m ≫= k) mc s = k a mc s1.
Proof. intros H. unfold mbind, U_bind. by rewrite H. Qed.

Lemma fetch_contacts_run fuel self list_id list_name mc s rf w3 :
  get_contacts_from_list fuel self (list_to_fetch list_id) 100 (net mc)
    (world_at (readings s) (paged s)) = (rf, w3) →
  ∃ s3,
    fetch_contacts fuel self list_id list_name mc s
    = (match rf with
       | Returns contacts => Returns (contacts, export_type_of list_id list_name)
       | Raises => Raises
       | OutOfFuel => OutOfFuel
       end, s3)
    ∧ readings s3 = clock w3 ∧ paged s3 = sent w3 ∧ saved s3 = saved s.
Proof.
  unfold fetch_contacts, list_to_fetch, export_type_of.
  destruct (truthy list_id); intros Hfetch.
  - unfold mbind, U_bind. rewrite (lift_M_run _ _ _ _ _ Hfetch).
    destruct rf; eexists; (split; [reflexivity|done]).
  - unfold mbind, U_bind. cbn [say]. erewrite lift_M_run by exact Hfetch.
    destruct rf; eexists; (split; [reflexivity|done]).
Qed.

Lemma choose_contact_df_run existing_data merge_strategy contact_data mc s r w5 :
  contact_df_of (merge_target existing_data merge_strategy) contact_data (net mc)
    (world_at (readings s) (paged s)) = (r, w5) →
  ∃ s5,
    choose_contact_df existing_data (file_exists_of existing_data) merge_strategy
      contact_data mc s = (r, s5)
    ∧ readings s5 = clock w5 ∧ paged s5 = sent w5 ∧ saved s5 = saved s.
Proof.
  unfold choose_contact_df, merge_target, contact_df_of.
  destruct (existing_data !! "Contacts") as [existing_contacts|].
  - destruct (file_exists_of existing_data && bool_decide (merge_strategy = "update")).
    + intros Hmerge. unfold mbind, U_bind. cbn [say].
      erewrite lift_M_run by exact Hmerge. eexists. split; [reflexivity|done].
    + intros [= <- <-]. eexists. split; [reflexivity|done].
  - intros [= <- <-]. eexists. split; [reflexivity|done].
Qed.

Lemma save_workbook_run full_filepath export_type file_exists contact_df mc s :
  ∃ s',
    save_workbook full_filepath export_type file_exists contact_df mc s
    = (Returns (match writing mc with
                | WriteOk => negb (os_nt mc && startfile_raises mc)
                | _ => false
                end), s')
    ∧ saved s'
      = match writing mc with
        | WriteOk =>
            Some (full_filepath,
                  export_sheets (strftime_now (net mc) (readings s)) export_type
                    file_exists contact_df)
        | _ => saved s
        end.
Proof.
  unfold save_workbook, write_excel, open_folder.
  unfold mbind, U_bind, u_try, lift_M, datetime_now. cbn.
  destruct (writing mc); cbn.
  - destruct (os_nt mc); cbn; [destruct (startfile_raises mc); cbn|];
      eexists; (split; [reflexivity|done]).
  - eexists. split; [reflexivity|done].
  - eexists. split; [reflexivity|done].
Qed.

(** The export computes [export_outcome]. *)
Lemma update_excel_outcome fuel self filename list_id list_name merge_strategy mc s :
  ∃ s',
    update_excel fuel self filename list_id list_name merge_strategy mc s
    = ((export_outcome fuel self filename list_id list_name merge_strategy mc s).1, s')
    ∧ saved s'
      = (export_outcome fuel self filename list_id list_name merge_strategy mc s).2.
Proof.
  unfold update_excel, export_outcome.
  destruct (test_connection_run self mc s) as (s1 & Htest & Hp1 & Hr1 & Hs1 & _).
  rewrite (U_bind_run _ _ _ _ _ _ Htest).
  destruct (probe_ok (probe mc (probed s))); cbn [negb].
  2:{ eexists. split; [reflexivity|]. by cbn. }
  rewrite (U_bind_run _ _ mc s1 (resolve mc filename) s1 eq_refl).
  destruct (load_existing_data_run (resolve mc filename) mc s1)
    as (s2 & Hload & Hr2 & Hp2 & _ & _ & Hs2 & _).
  rewrite (U_bind_run _ _ _ _ _ _ Hload).
  set (existing_data := loaded (file_at mc (resolve mc filename))).
  rewrite <- Hr1, <- Hp1, <- Hr2, <- Hp2, <- Hs1, <- Hs2.
  destruct (get_contacts_from_list fuel self (list_to_fetch list_id) 100 (net mc)
              (world_at (readings s2) (paged s2))) as [rf w3] eqn:Hfetch.
  destruct (fetch_contacts_run fuel self list_id list_name mc s2 rf w3 Hfetch)
    as (s3 & Hblock & Hr3 & Hp3 & Hs3).
  destruct rf as [contacts| |].
  2:{ unfold mbind, U_bind. rewrite Hblock. eexists. split; [reflexivity|done]. }
  2:{ unfold mbind, U_bind. rewrite Hblock. eexists. split; [reflexivity|done]. }
  rewrite (U_bind_run _ _ _ _ _ _ Hblock). cbn [fst snd].
  assert (Hdata : ∃ w4,
            contact_data contacts (net mc) (world_at (readings s3) (paged s3))
            = (Returns (records_from (net mc) (clock w3) contacts), w4)
            ∧ clock w4 = clock w3 + length contacts ∧ sent w4 = sent w3).
  { unfold contact_data. rewrite contact_data_from_run. unfold world_at, records_from.
    cbn [clock sent stdout]. rewrite Hr3, Hp3. eexists. split; [reflexivity|done]. }
  destruct Hdata as (w4 & Hdata & Hc4 & Hs4).
  rewrite (U_bind_run _ _ _ _ _ _ (lift_M_run _ _ _ _ _ Hdata)).
  set (s4 := {| console := _ |}).
  assert (Hr4 : readings s4 = clock w3 + length contacts) by exact Hc4.
  assert (Hp4 : paged s4 = sent w3) by exact Hs4.
  assert (Hsv4 : saved s4 = saved s3) by reflexivity.
  clearbody s4. rewrite <- Hr4, <- Hp4.
  destruct (contact_df_of (merge_target existing_data merge_strategy)
              (records_from (net mc) (clock w3) contacts) (net mc)
              (world_at (readings s4) (paged s4))) as [rm w5] eqn:Hmerge.
  destruct (choose_contact_df_run existing_data merge_strategy
              (records_from (net mc) (clock w3) contacts) mc s4 rm w5 Hmerge)
    as (s5 & Hchoose & Hr5 & Hp5 & Hs5).
  fold (file_exists_of existing_data).
  destruct rm as [contact_df| |].
  2:{ unfold mbind, U_bind. rewrite Hchoose. eexists. split; [reflexivity|].
      cbn. by rewrite Hs5, Hsv4, Hs3. }
  2:{ unfold mbind, U_bind. rewrite Hchoose. eexists. split; [reflexivity|].
      cbn. by rewrite Hs5, Hsv4, Hs3. }
  rewrite (U_bind_run _ _ _ _ _ _ Hchoose).
  destruct (save_workbook_run (resolve mc filename) (export_type_of list_id list_name)
              (file_exists_of existing_data) contact_df mc s5) as (s' & -> & Hsaved).
  exists s'. rewrite Hsaved, Hr5.
  destruct (writing mc); cbn; (split; [reflexivity|]); try done.
  all: by rewrite Hs5, Hsv4, Hs3.
Qed.

(** ** What an export leaves behind *)

Lemma records_from_shape e t contacts :
  Forall is_contact_info (records_from e t contacts).
Proof.
  apply Forall_forall. intros r (k & c & -> & _)%elem_of_lookup_imap. done.
Qed.

Lemma records_from_nil_iff e t contacts :
  records_from e t contacts = [] ↔ contacts = [].
Proof. destruct contacts; split; done. Qed.

Lemma new_contact_df_fetched_columns e t contacts :
  columns (new_contact_df (records_from e t contacts)) = fetched_columns.
Proof.
  destruct contacts as [|c rest]; [done|].
  apply (fetched_frame_columns (records_from e t (c :: rest))); [|done].
  apply records_from_shape.
Qed.

Lemma merge_target_Some existing_data merge_strategy existing_contacts :
  merge_target existing_data merge_strategy = Some existing_contacts
  ↔ existing_data !! "Contacts" = Some existing_contacts ∧ merge_strategy = "update".
Proof.
  unfold merge_target, file_exists_of. split.
  - destruct (existing_data !! "Contacts") as [df|] eqn:Hdf; [|done].
    case_bool_decide; [|by rewrite andb_false_r].
    destruct (negb _); [|done]. by intros [= ->].
  - intros [Hdf ->]. rewrite Hdf, bool_decide_true by done.
    assert (Hsize : size existing_data ≠ 0).
    { intros Hz%map_size_empty_iff. by rewrite Hz, lookup_empty in Hdf. }
    by destruct (Nat.eqb_spec (size existing_data) 0).
Qed.

Section Exports.
Variables (fuel : nat) (self : HubSpotExporter) (filename : string).
Variables (list_id list_name : option string) (merge_strategy : string).
Variables (mc : machine) (s : session).

(** X19. When the connection test fails, [update_excel] returns False
    at once: it loads and fetches nothing, reads no clock and leaves
    the file as it is. *)
Theorem update_excel_connection_failed :
  probe_ok (probe mc (probed s)) = false →
  ∃ s', update_excel fuel self filename list_id list_name merge_strategy mc s
        = (Returns false, s')
    ∧ paged s' = paged s ∧ readings s' = readings s ∧ saved s' = saved s
    ∧ probed s' = S (probed s).
Proof.
  intros Hfail. unfold update_excel.
  destruct (test_connection_run self mc s) as (s1 & Htest & Hp1 & Hr1 & Hs1 & Hb1).
  rewrite (U_bind_run _ _ _ _ _ _ Htest), Hfail. cbn [negb].
  unfold mbind, U_bind. cbn. eexists. split; [reflexivity|done].
Qed.

(** X20. An export that returns True has saved, at the resolved path,
    a workbook of five sheets in this order: 'Export Info', 'Summary',
    'Contacts', 'Emails', 'Meetings'.  The summary is that of the
    contacts sheet, the last two are the fixed empty tables, and
    'Export Info' records the number of rows of the contacts sheet. *)
Theorem update_excel_saved_workbook s' :
  update_excel fuel self filename list_id list_name merge_strategy mc s
  = (Returns true, s') →
  ∃ info contact_df,
    saved s'
    = Some (resolve mc filename,
            [ ("Export Info", info); ("Summary", summary_df contact_df);
              ("Contacts", contact_df); ("Emails", email_df);
              ("Meetings", meeting_df) ])
    ∧ getitem info "Total Contacts" = Some [Num (Z.of_nat (index contact_df))]
    ∧ getitem info "Export Type" = Some [Str (export_type_of list_id list_name)]
    ∧ wf_df info.
Proof.
  intros Hrun.
  destruct (update_excel_outcome fuel self filename list_id list_name merge_strategy mc s)
    as (s'' & Hout & Hsaved).
  rewrite Hrun in Hout. injection Hout as Hres <-. revert Hres Hsaved.
  unfold export_outcome.
  destruct (probe_ok _); cbn [negb]; [|done].
  destruct (get_contacts_from_list _ _ _ _ _ _) as [[contacts| |] w3]; [|done..].
  destruct (contact_df_of _ _ _ _) as [[contact_df| |] w5]; [|done..].
  destruct (writing mc); [|done..]. cbn [fst snd]. intros _ ->.
  eexists _, contact_df. split; [reflexivity|].
  split_and!; [done|done|apply pd_DataFrame_wf].
Qed.

(** X21. When the test passed and the writing went well, a False
    result means that the workbook was saved all the same and only
    the opening of the folder, on Windows, failed. *)
Theorem update_excel_false_after_saving s' :
  update_excel fuel self filename list_id list_name merge_strategy mc s
  = (Returns false, s') →
  probe_ok (probe mc (probed s)) = true →
  writing mc = WriteOk →
  os_nt mc = true ∧ startfile_raises mc = true
  ∧ ∃ sheets, saved s' = Some (resolve mc filename, sheets).
Proof.
  intros Hrun Hok Hwrite.
  destruct (update_excel_outcome fuel self filename list_id list_name merge_strategy mc s)
    as (s'' & Hout & Hsaved).
  rewrite Hrun in Hout. injection Hout as Hres <-. revert Hres Hsaved.
  unfold export_outcome. rewrite Hok, Hwrite. cbn [negb].
  destruct (get_contacts_from_list _ _ _ _ _ _) as [[contacts| |] w3]; [|done..].
  destruct (contact_df_of _ _ _ _) as [[contact_df| |] w5]; [|done..].
  cbn [fst snd]. intros [= Hb] ->.
  destruct (os_nt mc), (startfile_raises mc); try done.
  split_and!; [done|done|by eexists].
Qed.

(** X22. [update_excel] raises only past a passed connection test and
    only in one of two ways, both outside its try: the fetch raises
    (in its conversion to the v3 shape), or there is an existing
    contacts sheet to merge into under the 'update' strategy and
    [merge_contact_data] raises on the records built from the fetch.
    In both cases nothing is saved. *)
Theorem update_excel_raises s' :
  update_excel fuel self filename list_id list_name merge_strategy mc s = (Raises, s') →
  saved s' = saved s
  ∧ probe_ok (probe mc (probed s)) = true
  ∧ ((get_contacts_from_list fuel self (list_to_fetch list_id) 100 (net mc)
        (world_at (readings s) (paged s))).1 = Raises
     ∨ ∃ contacts w3 existing_contacts w',
         get_contacts_from_list fuel self (list_to_fetch list_id) 100 (net mc)
           (world_at (readings s) (paged s)) = (Returns contacts, w3)
         ∧ loaded (file_at mc (resolve mc filename)) !! "Contacts"
           = Some existing_contacts
         ∧ merge_strategy = "update"
         ∧ merge_contact_data (records_from (net mc) (clock w3) contacts)
             (Some existing_contacts) (net mc)
             (world_at (clock w3 + length contacts) (sent w3)) = (Raises, w')).
Proof.
  intros Hrun.
  destruct (update_excel_outcome fuel self filename list_id list_name merge_strategy mc s)
    as (s'' & Hout & Hsaved).
  rewrite Hrun in Hout. injection Hout as Hres <-. revert Hres Hsaved.
  unfold export_outcome.
  destruct (probe_ok _); cbn [negb]; [|done].
  destruct (get_contacts_from_list _ _ _ _ _ _) as [[contacts| |] w3] eqn:Hfetch.
  2:{ cbn [fst snd]. intros _ ->. split_and!; [done|done|by left]. }
  2:{ done. }
  destruct (merge_target _ _) as [existing_contacts|] eqn:Htarget.
  2:{ cbn [contact_df_of]. by destruct (writing mc). }
  apply merge_target_Some in Htarget as [Hsheet ->]. cbn [contact_df_of].
  destruct (merge_contact_data _ _ _ _) as [[contact_df| |] w5] eqn:Hmerge.
  - by destruct (writing mc).
  - cbn [fst snd]. intros _ ->. split_and!; [done|done|].
    right. by exists contacts, w3, existing_contacts, w5.
  - done.
Qed.

(** X23. When the existing file cannot be read as a whole (it is
    absent, is no workbook, or has a sheet that does not parse), an
    export that returns True writes the contacts sheet anew, with the
    nine fetched columns and nothing else, and records 'Created'. *)
Theorem update_excel_unreadable_file s' :
  update_excel fuel self filename list_id list_name merge_strategy mc s
  = (Returns true, s') →
  readable (file_at mc (resolve mc filename)) = None →
  ∃ info contact_df,
    saved s'
    = Some (resolve mc filename,
            [ ("Export Info", info); ("Summary", summary_df contact_df);
              ("Contacts", contact_df); ("Emails", email_df);
              ("Meetings", meeting_df) ])
    ∧ columns contact_df = fetched_columns
    ∧ getitem info "Status" = Some [Str "Created"].
Proof.
  intros Hrun Hbad.
  destruct (update_excel_outcome fuel self filename list_id list_name merge_strategy mc s)
    as (s'' & Hout & Hsaved).
  rewrite Hrun in Hout. injection Hout as Hres <-. revert Hres Hsaved.
  unfold export_outcome.
  destruct (probe_ok _); cbn [negb]; [|done].
  destruct (get_contacts_from_list _ _ _ _ _ _) as [[contacts| |] w3]; [|done..].
  assert (Hloaded : loaded (file_at mc (resolve mc filename)) = ∅)
    by (unfold loaded; by rewrite Hbad).
  rewrite Hloaded. unfold merge_target. rewrite lookup_empty. cbn [contact_df_of].
  destruct (writing mc); [|done..]. cbn [fst snd]. intros _ ->.
  eexists _, _. split; [reflexivity|].
  split; [apply new_contact_df_fetched_columns|done].
Qed.
End Exports.

(** The fetch when its first request is not answered 200. *)
Lemma get_contacts_from_list_refused fuel self list_id limit e w r rf w3 :
  requests_get e (length (sent w)) (page_request list_id limit 0) = Some r →
  status_code r ≠ 200%Z →
  get_contacts_from_list fuel self list_id limit e w = (rf, w3) →
  rf = Returns [] ∨ rf = OutOfFuel.
Proof.
  intros Hget Hst. destruct fuel as [|fuel].
  - rewrite get_contacts_from_list_unfold. cbn [fetch_pages out_of_fuel].
    intros [= <- _]. by right.
  - assert (Hget' : requests_get e (length (sent w) + length (@nil page))
                      (page_request list_id limit (cursor_after 0 [])) = Some r).
    { by rewrite Nat.add_0_r. }
    destruct (get_contacts_from_list_not_200 self list_id limit e w [] r (S fuel)
                (Forall_nil_2 _) I Hget' ltac:(simpl; lia) Hst) as (w1 & ->).
    intros [= <- _]. by left.
Qed.

Section ExportMerging.
Variables (fuel : nat) (self : HubSpotExporter) (filename : string).
Variables (list_id list_name : option string).
Variables (mc : machine) (s s' : session) (existing : DataFrame).
Hypothesis Hrun :
  update_excel fuel self filename list_id list_name "update" mc s = (Returns true, s').
Hypothesis Hsheet :
  loaded (file_at mc (resolve mc filename)) !! "Contacts" = Some existing.
Hypothesis Hexisting : empty existing = false.

(** An export that returns True with an existing contacts sheet wrote
    what the merge into that sheet returned. *)
Lemma update_excel_merged :
  ∃ info contacts w3 w w' contact_df,
    get_contacts_from_list fuel self (list_to_fetch list_id) 100 (net mc)
      (world_at (readings s) (paged s)) = (Returns contacts, w3)
    ∧ merge_contact_data (records_from (net mc) (clock w3) contacts) (Some existing)
        (net mc) w = (Returns contact_df, w')
    ∧ saved s'
      = Some (resolve mc filename,
              [ ("Export Info", info); ("Summary", summary_df contact_df);
                ("Contacts", contact_df); ("Emails", email_df);
                ("Meetings", meeting_df) ])
    ∧ getitem info "Total Contacts" = Some [Num (Z.of_nat (index contact_df))]
    ∧ getitem info "Status" = Some [Str "Updated"].
Proof.
  destruct (update_excel_outcome fuel self filename list_id list_name "update" mc s)
    as (s'' & Hout & Hsaved).
  rewrite Hrun in Hout. injection Hout as Hres <-. revert Hres Hsaved.
  unfold export_outcome.
  destruct (probe_ok _); cbn [negb]; [|done].
  destruct (get_contacts_from_list _ _ _ _ _ _) as [[contacts| |] w3]; [|done..].
  rewrite (proj2 (merge_target_Some _ "update" existing)) by done.
  cbn [contact_df_of].
  destruct (merge_contact_data _ _ _ _) as [[contact_df| |] w5] eqn:Hmerge; [|done..].
  destruct (writing mc); [|done..]. cbn [fst snd]. intros _ ->.
  eexists _, contacts, w3, _, _, contact_df.
  split_and!; [done|exact Hmerge|reflexivity|done|].
  unfold file_exists_of.
  assert (Hsize : size (loaded (file_at mc (resolve mc filename))) ≠ 0).
  { intros Hz%map_size_empty_iff. by rewrite Hz, lookup_empty in Hsheet. }
  by destruct (Nat.eqb_spec (size (loaded (file_at mc (resolve mc filename)))) 0).
Qed.

(** X24. A fetch that is refused at its first request (any answer but
    200) does not empty the file: with an existing contacts sheet that
    has rows and the 'Contact ID' column, an export that returns True
    writes that sheet back as it was. *)
Theorem update_excel_failed_fetch_keeps_contacts r :
  "Contact ID" ∈ columns existing →
  requests_get (net mc) (length (paged s))
    (page_request (list_to_fetch list_id) 100 0) = Some r →
  status_code r ≠ 200%Z →
  ∃ info,
    saved s'
    = Some (resolve mc filename,
            [ ("Export Info", info); ("Summary", summary_df existing);
              ("Contacts", existing); ("Emails", email_df);
              ("Meetings", meeting_df) ])
    ∧ getitem info "Total Contacts" = Some [Num (Z.of_nat (index existing))].
Proof.
  intros Hid Hget Hst.
  destruct update_excel_merged
    as (info & contacts & w3 & w & w' & contact_df & Hfetch & Hmerge & Hsaved & Htotal & _).
  destruct (get_contacts_from_list_refused fuel self (list_to_fetch list_id) 100
              (net mc) (world_at (readings s) (paged s)) r _ _ Hget Hst Hfetch)
    as [[= ->] | [=]].
  destruct (merge_contact_data_no_new (net mc) w [] existing Hexisting Hid eq_refl)
    as (w1 & Hmerge1 & _).
  change (records_from (net mc) (clock w3) []) with (@nil dict) in Hmerge.
  rewrite Hmerge in Hmerge1. injection Hmerge1 as -> _.
  by exists info.
Qed.

(** X25. Identifiers are matched as they are, a fetched one always
    being a str.  So when no identifier of the existing contacts sheet
    is a str (they are numbers or missing, as a reader that infers
    cell types gives them back for digits), an export that fetched at
    least one contact and returns True writes the empty string in
    every row of every custom column: no custom value is carried
    over. *)
Theorem update_excel_blanks_custom_columns ids contacts w3 c :
  getitem existing "Contact ID" = Some ids →
  Forall (fun i => ∀ text, i ≠ Str text) ids →
  get_contacts_from_list fuel self (list_to_fetch list_id) 100 (net mc)
    (world_at (readings s) (paged s)) = (Returns contacts, w3) →
  contacts ≠ [] →
  c ∈ columns existing →
  c ∉ fetched_columns →
  ∃ info contact_df,
    saved s'
    = Some (resolve mc filename,
            [ ("Export Info", info); ("Summary", summary_df contact_df);
              ("Contacts", contact_df); ("Emails", email_df);
              ("Meetings", meeting_df) ])
    ∧ index contact_df = length contacts
    ∧ getitem contact_df c = Some (replicate (length contacts) (Str "")).
Proof.
  intros Hids Hnum Hfetch Hsome Hc Hcustom.
  destruct update_excel_merged
    as (info & contacts' & w3' & w & w' & contact_df & Hfetch' & Hmerge & Hsaved & _).
  rewrite Hfetch in Hfetch'. injection Hfetch' as <- <-.
  exists info, contact_df. split; [done|].
  set (cd := records_from (net mc) (clock w3) contacts) in *.
  assert (Hshape : Forall is_contact_info cd) by apply records_from_shape.
  assert (Hne : cd ≠ []) by (by intros ?%records_from_nil_iff).
  assert (Hlen : length cd = length contacts) by apply length_imap.
  pose proof (fetched_not_empty cd Hshape Hne) as Hnew.
  pose proof (fetched_frame_columns cd Hshape Hne) as Hcols.
  assert (Hnew_ids : getitem (pd_DataFrame cd) "Contact ID" = Some (record_ids cd)).
  { apply fetched_getitem; [done..|by_compute]. }
  destruct (merge_contact_data_frame (net mc) w cd existing (record_ids cd) ids
              Hexisting Hnew Hnew_ids Hids contact_df w' Hmerge)
    as (Hidx & _ & Hcust & _).
  split; [by rewrite Hidx|].
  apply getitem_is_Some in Hc as Hvals. destruct Hvals as [vals Hvals].
  assert (HcC : c ∈ custom_columns_of (columns (pd_DataFrame cd)) existing).
  { apply custom_columns_of_elem. by rewrite Hcols. }
  destruct (Hcust c vals HcC Hvals) as (out_c & -> & Hlen_c & Hrows).
  f_equal. apply list_eq. intros j.
  assert (Hn : length (record_ids cd) = length contacts).
  { unfold record_ids. by rewrite length_map. }
  destruct (decide (j < length contacts)) as [Hj|Hj].
  - rewrite lookup_replicate_2 by done.
    destruct (lookup_lt_is_Some_2 (record_ids cd) j) as [x Hx]; [lia|].
    apply (Hrows j x Hx).
    intros Hin. rewrite Forall_forall in Hnum.
    unfold cd, records_from in Hx. rewrite record_ids_contact_info in Hx.
    rewrite list_lookup_fmap in Hx.
    destruct (contacts !! j) as [k|]; [|done]. injection Hx as <-.
    by apply (Hnum _ Hin (id k)).
  - rewrite (lookup_ge_None_2 out_c) by lia.
    symmetry. apply lookup_replicate_None. lia.
Qed.
End ExportMerging.

(** ** An export that goes through *)

(** The fetch over a finite run of pages of well-formed contacts. *)
Lemma get_contacts_from_list_finishes fuel self list_id limit e w init final raws :
  Forall (fun p => get_has_more p = true) init →
  get_has_more final = false →
  serves list_id limit e (length (sent w)) 0 (init ++ [final]) →
  (length init < fuel)%nat →
  concat (map (fun p => default [] (pg_contacts p)) (init ++ [final]))
  = map JContact raws →
  Forall (fun raw => rc_properties raw ≠ NotAnObject) raws →
  ∃ out w', get_contacts_from_list fuel self list_id limit e w = (Returns out, w').
Proof.
  intros Hmore Hfinal Hserv Hfuel Hraws Hshape.
  destruct (v3_contact_records raws Hshape) as (out & Hout & _).
  apply Fetch.serves_app in Hserv as [Hinit [[txt Hget] _]].
  replace fuel with (length init + S (fuel - S (length init))) by lia.
  rewrite Fetch.get_contacts_from_list_more by done.
  set (w1 := after_pages self list_id limit _ 1 0 init).
  assert (Hlen : length (sent w1) = length (sent w) + length init)
    by (unfold w1; by rewrite Fetch.sent_after_pages).
  rewrite <- Hlen in Hget.
  unfold mbind at 1, M_bind at 1. cbn [fetch_pages].
  unfold mbind at 1, M_bind at 1.
  rewrite (Fetch.fetch_page_200 _ _ _ _ _ _ _ _ _ _ Hget), Hfinal.
  assert (Hall : concat (map get_contacts init) ++ get_contacts final
                 = map JContact raws).
  { rewrite <- Hraws, map_app, concat_app. cbn [map concat]. by rewrite app_nil_r. }
  exists out. eexists.
  unfold mbind, M_bind. cbn [print mret M_ret]. rewrite Hall, Hout. reflexivity.
Qed.

(** The merge of fetched records returns when the existing identifiers
    are distinct. *)
Lemma merge_contact_data_returns e w contact_data existing :
  Forall is_contact_info contact_data →
  (∀ ids, getitem existing "Contact ID" = Some ids → NoDup ids) →
  ∃ out w', merge_contact_data contact_data (Some existing) e w = (Returns out, w').
Proof.
  intros Hshape Hnd.
  destruct (empty existing) eqn:Hdf.
  { rewrite merge_contact_data_empty by done. by eexists _, _. }
  destruct (decide ("Contact ID" ∈ columns existing)) as [Hid|Hid].
  2:{ rewrite merge_contact_data_no_id by done. by eexists _, _. }
  destruct contact_data as [|r rest].
  { destruct (merge_contact_data_no_new e w [] existing Hdf Hid eq_refl) as (w1 & -> & _).
    by eexists _, _. }
  apply getitem_is_Some in Hid as [ids Hids].
  assert (Hne : r :: rest ≠ []) by done.
  assert (Hnew_ids : getitem (pd_DataFrame (r :: rest)) "Contact ID"
                     = Some (record_ids (r :: rest))).
  { apply fetched_getitem; [done..|by_compute]. }
  destruct (merge_contact_data_merges e w (r :: rest) existing _ ids Hdf
              (fetched_not_empty _ Hshape Hne) Hnew_ids Hids (Hnd _ Hids))
    as (out & w' & _ & -> & _).
  by eexists _, _.
Qed.

(** X26. An export goes through when the connection test passes, the
    server answers a finite run of pages within the turns allowed,
    their contacts being objects whose properties, when given, are an
    object, the identifiers of an existing contacts sheet are distinct
    and the file can be written: it saves a workbook of the five
    sheets at the resolved path and returns True, or False only when
    the folder could not be opened on Windows. *)
Theorem update_excel_completes fuel self filename list_id list_name merge_strategy
    mc s init final raws :
  probe_ok (probe mc (probed s)) = true →
  Forall (fun p => get_has_more p = true) init →
  get_has_more final = false →
  serves (list_to_fetch list_id) 100 (net mc) (length (paged s)) 0 (init ++ [final]) →
  (length init < fuel)%nat →
  concat (map (fun p => default [] (pg_contacts p)) (init ++ [final]))
  = map JContact raws →
  Forall (fun raw => rc_properties raw ≠ NotAnObject) raws →
  (∀ existing ids,
     loaded (file_at mc (resolve mc filename)) !! "Contacts" = Some existing →
     getitem existing "Contact ID" = Some ids → NoDup ids) →
  writing mc = WriteOk →
  ∃ s' sheets,
    update_excel fuel self filename list_id list_name merge_strategy mc s
    = (Returns (negb (os_nt mc && startfile_raises mc)), s')
    ∧ saved s' = Some (resolve mc filename, sheets)
    ∧ sheets.*1 = ["Export Info"; "Summary"; "Contacts"; "Emails"; "Meetings"].
Proof.
  intros Hok Hmore Hfinal Hserv Hfuel Hraws Hshape Hnd Hwrite.
  destruct (update_excel_outcome fuel self filename list_id list_name merge_strategy mc s)
    as (s' & Hout & Hsaved).
  exists s'. revert Hout Hsaved. unfold export_outcome. rewrite Hok, Hwrite. cbn [negb].
  destruct (get_contacts_from_list_finishes fuel self (list_to_fetch list_id) 100
              (net mc) (world_at (readings s) (paged s)) init final raws
              Hmore Hfinal Hserv Hfuel Hraws Hshape) as (contacts & w3 & ->).
  destruct (merge_target _ _) as [existing|] eqn:Htarget; cbn [contact_df_of].
  - apply merge_target_Some in Htarget as [Hsheet _].
    destruct (merge_contact_data_returns (net mc)
                (world_at (clock w3 + length contacts) (sent w3))
                (records_from (net mc) (clock w3) contacts) existing
                (records_from_shape _ _ _) (fun ids => Hnd existing ids Hsheet))
      as (out & w5 & ->).
    cbn [fst snd]. intros -> ->. by eexists.
  - cbn [fst snd]. intros -> ->. by eexists.
Qed.

(** ** The further properties on the sample data *)

Lemma get_contacts_from_list_raises_witness :
  ∃ n offset r p entry,
    requests_get (sample_env_of null_properties) n
      {| rq_list_id := "42"; rq_count := 100; rq_vidOffset := offset |} = Some r
    ∧ status_code r = 200%Z
    ∧ json r = Some p
    ∧ entry ∈ default [] (pg_contacts p)
    ∧ match entry with
      | JContact c => rc_properties c = NotAnObject
      | JOther => True
      end.
Proof.
  apply (get_contacts_from_list_raises sample_exporter "42" 100 1
           (sample_env_of null_properties) world0).
  by vm_compute.
Defined.

Lemma get_contacts_from_list_http_error_witness :
  ∃ w', get_contacts_from_list 2 sample_exporter "42" 100
          (sample_env_of server_error) world0 = (Returns [], w')
    ∧ (500%Z ≠ 401%Z → 500%Z ≠ 404%Z →
       last (stdout w') = Some (HttpError 500 "internal error")).
Proof.
  apply (get_contacts_from_list_http_error sample_exporter "42" 100
           (sample_env_of server_error) world0 [page_a]
           {| status_code := 500; text := "internal error"; json := None |} 2).
  - by repeat constructor.
  - repeat split; by eexists.
  - reflexivity.
  - simpl. lia.
  - done.
Defined.

Lemma get_contacts_from_list_undecodable_witness :
  ∃ out w', get_contacts_from_list 2 sample_exporter "42" 100
              (sample_env_of garbled) world0 = (Returns out, w')
    ∧ Forall2 record_of [sample_v1 1 "a@x.io"; sample_v1 2 "b@x.io"] out
    ∧ ExceptionOccurred ∈ stdout w'.
Proof.
  apply (get_contacts_from_list_undecodable sample_exporter "42" 100
           (sample_env_of garbled) world0 [page_a]
           {| status_code := 200; text := "<html>"; json := None |} 2).
  - by repeat constructor.
  - repeat split; by eexists.
  - reflexivity.
  - simpl. lia.
  - reflexivity.
  - reflexivity.
  - reflexivity.
  - by repeat constructor.
Defined.

Lemma get_contacts_from_list_endless_witness :
  (get_contacts_from_list 7 sample_exporter "42" 100 (sample_env_of endless) world0).1
  = OutOfFuel
  ∧ length (sent (get_contacts_from_list 7 sample_exporter "42" 100
                    (sample_env_of endless) world0).2)
    = length (sent world0) + 7.
Proof.
  apply (get_contacts_from_list_endless sample_exporter "42" 100 (sample_env_of endless)).
  intros n rq. exists "", page_a. split; reflexivity.
Defined.

Lemma fetched_ids_distinct_witness :
  NoDup (record_ids (records_from sample_env 0 (take 2 sample_fetched)))
  ∧ record_ids (records_from sample_env 0 (take 2 sample_fetched))
    = map (fun v => Str (str v)) [1%Z; 2%Z].
Proof.
  apply (fetched_ids_distinct [sample_v1 1 "a@x.io"; sample_v1 2 "b@x.io"] [1%Z; 2%Z]
           (take 2 sample_fetched) sample_env world0 _
           {| stdout := []; clock := 2; sent := [] |}).
  - reflexivity.
  - by_compute.
  - by vm_compute.
  - by vm_compute.
Defined.

Lemma merge_contact_data_new_ids_blank_witness :
  (NoDup [Str "1"; Str "3"] →
   ∃ out w', merge_contact_data sample_records (Some sample_existing) sample_env world0
             = (Returns out, w'))
  ∧ ∀ out w',
      merge_contact_data sample_records (Some sample_existing) sample_env world0
      = (Returns out, w') →
      ∃ out_c, getitem out "Owner Notes" = Some out_c
        ∧ ∀ j, [Str "1"; Str "2"] !! j = Some (Str "2") → out_c !! j = Some (Str "").
Proof.
  apply (merge_contact_data_new_ids_blank sample_env world0 sample_records
           sample_existing [Str "1"; Str "2"] [Str "1"; Str "3"]); by_compute.
Defined.

Lemma merge_contact_data_fetched_values_witness :
  index sample_merged = length sample_records
  ∧ (∀ c, c ∈ columns (pd_DataFrame sample_records) → c ≠ "Last Updated" →
       getitem sample_merged c = getitem (pd_DataFrame sample_records) c)
  ∧ getitem sample_merged "Last Updated"
    = Some (replicate (length sample_records) (Str (strftime_now sample_env 2)))
  ∧ 3 = 3
  ∧ @nil request = [].
Proof.
  apply (merge_contact_data_fetched_values sample_env
           {| stdout := []; clock := 2; sent := [] |} sample_records sample_existing
           [Str "1"; Str "2"] [Str "1"; Str "3"]
           ltac:(by_compute) ltac:(by_compute) ltac:(by_compute) ltac:(by_compute)
           sample_merged
           {| stdout := [PreservingCustom ["Owner Notes"]; FoundNew 1];
              clock := 3; sent := [] |}).
  - by_compute.
  - by vm_compute.
Defined.

Lemma merge_contact_data_raises_iff_witness :
  (∃ w', merge_contact_data sample_records (Some sample_duplicated) sample_env world0
         = (Raises, w'))
  ↔ ¬ NoDup [Str "1"; Str "3"; Str "3"].
Proof.
  apply (merge_contact_data_raises_iff sample_env world0 sample_records
           sample_duplicated [Str "1"; Str "2"] [Str "1"; Str "3"; Str "3"]); by_compute.
Defined.

Lemma merge_contact_data_records_without_id_witness :
  (merge_contact_data sample_records_without_id (Some sample_existing)
     sample_env world0).1 = Raises.
Proof.
  apply (merge_contact_data_records_without_id sample_env world0
           sample_records_without_id sample_existing); by_compute.
Defined.

Lemma merge_contact_data_wf_witness : wf_df sample_merged.
Proof.
  apply (merge_contact_data_wf sample_env {| stdout := []; clock := 2; sent := [] |}
           sample_records (Some sample_existing) sample_merged
           {| stdout := [PreservingCustom ["Owner Notes"]; FoundNew 1];
              clock := 3; sent := [] |}).
  - by_compute.
  - by vm_compute.
Defined.

Lemma new_contact_df_columns_witness :
  columns (new_contact_df sample_records) = fetched_columns
  ∧ index (new_contact_df sample_records) = length sample_records
  ∧ wf_df (new_contact_df sample_records).
Proof.
  apply (new_contact_df_columns sample_records). by repeat constructor.
Defined.

Lemma summary_df_spec_witness :
  index (summary_df sample_merged) = index sample_merged
  ∧ (∀ c, c ∉ summary_columns →
       getitem (summary_df sample_merged) c = getitem sample_merged c)
  ∧ getitem (summary_df sample_merged) "Total Emails"
    = Some (replicate (index sample_merged) (Num 0))
  ∧ getitem (summary_df sample_merged) "Total Meetings"
    = Some (replicate (index sample_merged) (Num 0))
  ∧ getitem (summary_df sample_merged) "Last Email Date"
    = Some (replicate (index sample_merged) (Str ""))
  ∧ getitem (summary_df sample_merged) "Last Meeting Date"
    = Some (replicate (index sample_merged) (Str ""))
  ∧ ((∀ c, c ∈ summary_columns → c ∉ columns sample_merged) →
     columns (summary_df sample_merged) = columns sample_merged ++ summary_columns).
Proof. apply (summary_df_spec sample_merged). reflexivity. Defined.

Lemma update_excel_connection_failed_witness :
  ∃ s', update_excel 3 sample_exporter "hubspot_export.xlsx" (Some "42")
          (Some "Newsletter") "update" offline_machine session0
        = (Returns false, s')
    ∧ paged s' = paged session0 ∧ readings s' = readings session0
    ∧ saved s' = saved session0
    ∧ probed s' = S (probed session0).
Proof.
  apply (update_excel_connection_failed 3 sample_exporter "hubspot_export.xlsx"
           (Some "42") (Some "Newsletter") "update" offline_machine session0).
  reflexivity.
Defined.

Lemma update_excel_saved_workbook_witness :
  ∃ info contact_df,
    saved (update_excel 3 sample_exporter "hubspot_export.xlsx" (Some "42")
             (Some "Newsletter") "update" sample_machine session0).2
    = Some (resolve sample_machine "hubspot_export.xlsx",
            [ ("Export Info", info); ("Summary", summary_df contact_df);
              ("Contacts", contact_df); ("Emails", email_df);
              ("Meetings", meeting_df) ])
    ∧ getitem info "Total Contacts" = Some [Num (Z.of_nat (index contact_df))]
    ∧ getitem info "Export Type"
      = Some [Str (export_type_of (Some "42") (Some "Newsletter"))]
    ∧ wf_df info.
Proof.
  apply (update_excel_saved_workbook 3 sample_exporter "hubspot_export.xlsx"
           (Some "42") (Some "Newsletter") "update" sample_machine session0).
  by vm_compute.
Defined.

Lemma update_excel_false_after_saving_witness :
  os_nt windows_machine = true ∧ startfile_raises windows_machine = true
  ∧ ∃ sheets,
      saved (update_excel 3 sample_exporter "hubspot_export.xlsx" (Some "42")
               (Some "Newsletter") "update" windows_machine session0).2
      = Some (resolve windows_machine "hubspot_export.xlsx", sheets).
Proof.
  apply (update_excel_false_after_saving 3 sample_exporter "hubspot_export.xlsx"
           (Some "42") (Some "Newsletter") "update" windows_machine session0).
  - by vm_compute.
  - reflexivity.
  - reflexivity.
Defined.

Lemma update_excel_raises_witness :
  saved (update_excel 3 sample_exporter "hubspot_export.xlsx" (Some "42")
           (Some "Newsletter") "update" duplicated_machine session0).2
  = saved session0
  ∧ probe_ok (probe duplicated_machine (probed session0)) = true
  ∧ ((get_contacts_from_list 3 sample_exporter (list_to_fetch (Some "42")) 100
        (net duplicated_machine)
        (world_at (readings session0) (paged session0))).1 = Raises
     ∨ ∃ contacts w3 existing_contacts w',
         get_contacts_from_list 3 sample_exporter (list_to_fetch (Some "42")) 100
           (net duplicated_machine)
           (world_at (readings session0) (paged session0)) = (Returns contacts, w3)
         ∧ loaded (file_at duplicated_machine
                     (resolve duplicated_machine "hubspot_export.xlsx")) !! "Contacts"
           = Some existing_contacts
         ∧ "update" = "update"
         ∧ merge_contact_data (records_from (net duplicated_machine) (clock w3) contacts)
             (Some existing_contacts) (net duplicated_machine)
             (world_at (clock w3 + length contacts) (sent w3)) = (Raises, w')).
Proof.
  apply (update_excel_raises 3 sample_exporter "hubspot_export.xlsx"
           (Some "42") (Some "Newsletter") "update" duplicated_machine session0).
  by vm_compute.
Defined.

Lemma update_excel_unreadable_file_witness :
  ∃ info contact_df,
    saved (update_excel 3 sample_exporter "first_export.xlsx" (Some "42")
             (Some "Newsletter") "update" sample_machine session0).2
    = Some (resolve sample_machine "first_export.xlsx",
            [ ("Export Info", info); ("Summary", summary_df contact_df);
              ("Contacts", contact_df); ("Emails", email_df);
              ("Meetings", meeting_df) ])
    ∧ columns contact_df = fetched_columns
    ∧ getitem info "Status" = Some [Str "Created"].
Proof.
  apply (update_excel_unreadable_file 3 sample_exporter "first_export.xlsx"
           (Some "42") (Some "Newsletter") "update" sample_machine session0).
  - by vm_compute.
  - reflexivity.
Defined.

Lemma update_excel_failed_fetch_keeps_contacts_witness :
  ∃ info,
    saved (update_excel 3 sample_exporter "hubspot_export.xlsx" (Some "42")
             (Some "Newsletter") "update" refused_machine session0).2
    = Some (resolve refused_machine "hubspot_export.xlsx",
            [ ("Export Info", info); ("Summary", summary_df sample_existing);
              ("Contacts", sample_existing); ("Emails", email_df);
              ("Meetings", meeting_df) ])
    ∧ getitem info "Total Contacts" = Some [Num (Z.of_nat (index sample_existing))].
Proof.
  apply (update_excel_failed_fetch_keeps_contacts 3 sample_exporter
           "hubspot_export.xlsx" (Some "42") (Some "Newsletter") refused_machine
           session0 _ sample_existing ltac:(by vm_compute) ltac:(by vm_compute)
           ltac:(reflexivity)
           {| status_code := 401; text := "unauthorized"; json := None |}).
  - by_compute.
  - reflexivity.
  - done.
Defined.

Lemma update_excel_blanks_custom_columns_witness :
  ∃ info contact_df,
    saved (update_excel 3 sample_exporter "hubspot_export.xlsx" (Some "42")
             (Some "Newsletter") "update" reloaded_machine session0).2
    = Some (resolve reloaded_machine "hubspot_export.xlsx",
            [ ("Export Info", info); ("Summary", summary_df contact_df);
              ("Contacts", contact_df); ("Emails", email_df);
              ("Meetings", meeting_df) ])
    ∧ index contact_df = length sample_fetched
    ∧ getitem contact_df "Owner Notes"
      = Some (replicate (length sample_fetched) (Str "")).
Proof.
  apply (update_excel_blanks_custom_columns 3 sample_exporter "hubspot_export.xlsx"
           (Some "42") (Some "Newsletter") reloaded_machine session0 _ sample_reloaded
           ltac:(by vm_compute) ltac:(by vm_compute) ltac:(reflexivity)
           [Num 1; Num 3] sample_fetched
           (get_contacts_from_list 3 sample_exporter "42" 100 sample_env
              (world_at 0 [])).2).
  - reflexivity.
  - by repeat constructor.
  - by vm_compute.
  - done.
  - by_compute.
  - by_compute.
Defined.

Lemma update_excel_completes_witness :
  ∃ s' sheets,
    update_excel 3 sample_exporter "hubspot_export.xlsx" (Some "42")
      (Some "Newsletter") "update" sample_machine session0
    = (Returns (negb (os_nt sample_machine && startfile_raises sample_machine)), s')
    ∧ saved s' = Some (resolve sample_machine "hubspot_export.xlsx", sheets)
    ∧ sheets.*1 = ["Export Info"; "Summary"; "Contacts"; "Emails"; "Meetings"].
Proof.
  apply (update_excel_completes 3 sample_exporter "hubspot_export.xlsx" (Some "42")
           (Some "Newsletter") "update" sample_machine session0 [page_a; page_b] page_c
           [sample_v1 1 "a@x.io"; sample_v1 2 "b@x.io"; sample_v1 3 "c@x.io";
            sample_v1 4 "d@x.io"]).
  - reflexivity.
  - by repeat constructor.
  - reflexivity.
  - repeat split; by eexists.
  - simpl. lia.
  - reflexivity.
  - by repeat constructor.
  - intros existing ids [= <-]%(inj Some) [= <-]. by_compute.
  - reflexivity.
Defined.
